(** * fix_to_csv: tokenizer and order/fill correlation

    A shallow embedding of [src/fix_to_csv.py] and the properties of its
    tokenizer ([parse_fix_line]), its classification pass
    ([load_orders_and_fills]) and its correlation pass ([build_rows]).

    Modelling conventions.
    - A Python [str] is a list of Unicode code points, each an [N].
    - A Python [dict] with string keys is a [gmap]: nothing in the program
      iterates over a dict, so insertion order is never observed.
    - [d.get(k)] is the lookup [d !! k] ([None] for Python's [None]);
      [d.get(k, "")] is [get_or_empty].
    - A [for] loop whose body ends in [continue] on every failing test is a
      fold whose step returns its state unchanged on those paths. *)

From stdpp Require Import gmap list fin_maps.
From Stdlib Require Import String Ascii.

Local Open Scope N_scope.
Local Open Scope list_scope.

(** ** Python strings *)

Definition char := N.
Abbreviation str := (list N).
Abbreviation pydict := (gmap (list N) (list N)).

(** The code points of an ASCII literal. *)
Definition py (s : string) : str :=
  List.map N_of_ascii (list_ascii_of_string s).

Definition SOH : char := 1.
Definition PIPE : char := 124.
Definition EQUALS : char := 61.

(** [str.isspace] on one code point, which is also what [\s] matches in a
    [str] pattern: the Unicode white space characters. *)
Definition is_space (c : char) : bool :=
  ((9 <=? c) && (c <=? 13)) || ((28 <=? c) && (c <=? 32))
  || (c =? 133) || (c =? 160) || (c =? 5760)
  || ((8192 <=? c) && (c <=? 8202))
  || (c =? 8232) || (c =? 8233) || (c =? 8239) || (c =? 8287)
  || (c =? 12288).

(** [c in s] for a one-character [c]. *)
Definition contains (c : char) (s : str) : bool :=
  existsb (N.eqb c) s.

Fixpoint lstrip (s : str) : str :=
  match s with
  | [] => []
  | c :: s' => if is_space c then lstrip s' else s
  end.

Definition rstrip (s : str) : str := rev (lstrip (rev s)).

(** [s.strip()] *)
Definition strip (s : str) : str := rstrip (lstrip s).

(** [s.split(c)] for a one-character separator: one piece more than there
    are separators, empty pieces kept. *)
Fixpoint split_on (c : char) (s : str) : list str :=
  match s with
  | [] => [[]]
  | x :: s' =>
      if x =? c then [] :: split_on c s'
      else match split_on c s' with
           | w :: ws => (x :: w) :: ws
           | [] => [[x]]
           end
  end.

(** [re.split(r"\s+", s)]: the pieces between maximal runs of white space.
    [in_run] tells that the previous character belonged to a run, so that
    the run is not cut twice. *)
Fixpoint re_split_ws_from (in_run : bool) (s : str) : list str :=
  match s with
  | [] => [[]]
  | x :: s' =>
      if is_space x then
        if in_run then re_split_ws_from true s'
        else [] :: re_split_ws_from true s'
      else match re_split_ws_from false s' with
           | w :: ws => (x :: w) :: ws
           | [] => [[x]]
           end
  end.

Definition re_split_ws (s : str) : list str := re_split_ws_from false s.

(** [f.split("=", 1)] when ["=" in f]: the text before the first [=] and
    the text after it; [None] when [f] holds no [=]. *)
Fixpoint split_eq1 (f : str) : option (str * str) :=
  match f with
  | [] => None
  | x :: f' =>
      if x =? EQUALS then Some ([], f')
      else match split_eq1 f' with
           | Some (k, v) => Some (x :: k, v)
           | None => None
           end
  end.

(** ** Tags and values *)

Definition TAG_MSGTYPE : str := py "35".
Definition TAG_CLORDID : str := py "11".
Definition TAG_ORIGCLORDID : str := py "41".
Definition TAG_TRANSACTTIME : str := py "60".
Definition TAG_SYMBOL : str := py "55".
Definition TAG_SIDE : str := py "54".
Definition TAG_ORDERQTY : str := py "38".
Definition TAG_ORDTYPE : str := py "40".
Definition TAG_PRICE : str := py "44".
Definition TAG_EXECTYPE : str := py "150".
Definition TAG_ORDSTATUS : str := py "39".
Definition TAG_AVGPX : str := py "6".
Definition TAG_LASTMKT : str := py "30".

Definition MSG_NEW_ORDER_SINGLE : str := py "D".
Definition MSG_EXEC_REPORT : str := py "8".
Definition EXECTYPE_FILL : str := py "2".
Definition ORDSTATUS_FILLED : str := py "2".
Definition ORDTYPE_LIMIT : str := py "2".

Definition HEADER : list str :=
  [ py "OrderID"; py "OrderTransactTime"; py "ExecutionTransactTime";
    py "Symbol"; py "Side"; py "OrderQty"; py "LimitPrice"; py "AvgPx";
    py "LastMkt" ].

(** ** Dictionary access *)

(** [d.get(k, "")] *)
Definition get_or_empty (d : pydict) (k : str) : str :=
  default [] (d !! k).

(** Truth value of a string: [""] is false. *)
Definition truthy (s : str) : bool :=
  match s with [] => false | _ :: _ => true end.

(** Truth value of the result of [d.get(k)]: [None] and [""] are false. *)
Definition truthy_opt (o : option str) : bool :=
  match o with Some s => truthy s | None => false end.

(** [a or b] on strings. *)
Definition str_or (a b : str) : str := if truthy a then a else b.

(** [a or b] on results of [d.get]. *)
Definition opt_or (a b : option str) : option str :=
  if truthy_opt a then a else b.

(** ** parse_fix_line *)

(** One turn of the loop over [fields]. *)
Definition parse_field (msg : pydict) (f : str) : pydict :=
  match f with
  | [] => msg
  | _ :: _ =>
      match split_eq1 f with
      | None => msg
      | Some (k, v) => <[k := v]> msg
      end
  end.

Definition split_fields (line : str) : list str :=
  if contains SOH line then split_on SOH line
  else if contains PIPE line then split_on PIPE line
  else re_split_ws line.

Definition parse_fix_line (line : str) : pydict :=
  let line := strip line in
  match line with
  | [] => ∅
  | _ :: _ => fold_left parse_field (split_fields line) ∅
  end.

(** ** load_orders_and_fills *)

Abbreviation order_store := (gmap (list N) (gmap (list N) (list N))).

(** The dictionary stored for a qualifying order. *)
Definition order_entry (msg : pydict) (clid ordtype : str) : pydict :=
  <[TAG_ORDTYPE := ordtype]>
  (<[TAG_PRICE := get_or_empty msg TAG_PRICE]>
  (<[TAG_ORDERQTY := get_or_empty msg TAG_ORDERQTY]>
  (<[TAG_SIDE := get_or_empty msg TAG_SIDE]>
  (<[TAG_SYMBOL := get_or_empty msg TAG_SYMBOL]>
  (<[TAG_TRANSACTTIME := get_or_empty msg TAG_TRANSACTTIME]>
  (<[TAG_CLORDID := clid]> ∅)))))).

(** The loop body on an already tokenized message. *)
Definition load_msg (st : order_store * list pydict) (msg : pydict)
  : order_store * list pydict :=
  let '(orders_by_id, fills) := st in
  if decide (msg = ∅) then st
  else
    let msgtype := msg !! TAG_MSGTYPE in
    if decide (msgtype = Some MSG_NEW_ORDER_SINGLE) then
      let clid := msg !! TAG_CLORDID in
      match clid with
      | None => st
      | Some [] => st
      | Some clid =>
          let ordtype := msg !! TAG_ORDTYPE in
          match ordtype with
          | None => st
          | Some ordtype =>
              if decide (ordtype = ORDTYPE_LIMIT)
              then (<[clid := order_entry msg clid ordtype]> orders_by_id,
                    fills)
              else st
          end
      end
    else if decide (msgtype = Some MSG_EXEC_REPORT) then
      if decide (msg !! TAG_EXECTYPE = Some EXECTYPE_FILL) then
        if decide (msg !! TAG_ORDSTATUS = Some ORDSTATUS_FILLED)
        then (orders_by_id, fills ++ [msg])
        else st
      else st
    else st.

Definition load_line (st : order_store * list pydict) (line : str)
  : order_store * list pydict :=
  load_msg st (parse_fix_line line).

Definition load_orders_and_fills (lines : list str)
  : order_store * list pydict :=
  fold_left load_line lines (∅, []).

(** ** build_rows *)

(** [ex.get(TAG_ORIGCLORDID) or ex.get(TAG_CLORDID)] *)
Definition resolve_clid (ex : pydict) : option str :=
  opt_or (ex !! TAG_ORIGCLORDID) (ex !! TAG_CLORDID).

(** The row composed from a stored order and a fill. *)
Definition compose_row (order ex : pydict) : list str :=
  [ get_or_empty order TAG_CLORDID;
    get_or_empty order TAG_TRANSACTTIME;
    get_or_empty ex TAG_TRANSACTTIME;
    str_or (get_or_empty order TAG_SYMBOL) (get_or_empty ex TAG_SYMBOL);
    str_or (get_or_empty order TAG_SIDE) (get_or_empty ex TAG_SIDE);
    str_or (get_or_empty order TAG_ORDERQTY) (get_or_empty ex TAG_ORDERQTY);
    get_or_empty order TAG_PRICE;
    get_or_empty ex TAG_AVGPX;
    get_or_empty ex TAG_LASTMKT ].

(** The loop body: [Some row] when a row is appended, [None] on each
    [continue]. *)
Definition build_row (orders_by_id : order_store) (ex : pydict)
  : option (list str) :=
  let clid := resolve_clid ex in
  if negb (truthy_opt clid) then None
  else
    match clid with
    | None => None
    | Some clid =>
        match orders_by_id !! clid with
        | None => None
        | Some order =>
            if decide (order = ∅) then None
            else
              match ex !! TAG_ORDTYPE with
              | Some ordtype_exec =>
                  if decide (ordtype_exec = ORDTYPE_LIMIT)
                  then Some (compose_row order ex)
                  else None
              | None => Some (compose_row order ex)
              end
        end
    end.

Fixpoint build_rows (orders_by_id : order_store) (fills : list pydict)
  : list (list str) :=
  match fills with
  | [] => []
  | ex :: fills' =>
      match build_row orders_by_id ex with
      | Some row => row :: build_rows orders_by_id fills'
      | None => build_rows orders_by_id fills'
      end
  end.

(** The two calls of [main] between reading the lines and writing the
    rows. *)
Definition fix_rows (lines : list str) : list (list str) :=
  let '(orders_by_id, fills) := load_orders_and_fills lines in
  build_rows orders_by_id fills.

(** ** Columns of a row, by position in [HEADER] *)

Definition column (i : nat) (row : list str) : str := nth i row [].

Definition OrderID := column 0.
Definition OrderTransactTime := column 1.
Definition ExecutionTransactTime := column 2.
Definition Symbol := column 3.
Definition Side := column 4.
Definition OrderQty := column 5.
Definition LimitPrice := column 6.
Definition AvgPx := column 7.
Definition LastMkt := column 8.

(** ** Rendering a message as a line *)

(** [tag=value] *)
Definition field_text (kv : str * str) : str :=
  kv.1 ++ EQUALS :: kv.2.

(** [sep.join(parts)] *)
Fixpoint join (sep : str) (parts : list str) : str :=
  match parts with
  | [] => []
  | [p] => p
  | p :: ps => p ++ sep ++ join sep ps
  end.

Definition render (sep : str) (fields : list (str * str)) : str :=
  join sep (List.map field_text fields).

(** The dictionary obtained by assigning the fields in order. *)
Definition assign_fields (fields : list (str * str)) : pydict :=
  fold_left (fun m kv => <[kv.1 := kv.2]> m) fields ∅.

(** [s] holds no SOH, no pipe and no white space. *)
Definition plain (s : str) : bool :=
  forallb (fun x => negb (x =? SOH) && negb (x =? PIPE) && negb (is_space x))
          s.

(** The same, as a property of every character. *)
Definition clean (s : str) : Prop :=
  Forall (fun x => x <> SOH /\ x <> PIPE /\ is_space x = false) s.

(** A tag holds no [=] either. *)
Definition plain_tag (k : str) : bool :=
  plain k && negb (contains EQUALS k).

(** The three ways of joining fields: SOH, a pipe, a run of white space. *)
Definition is_separator (sep : str) : Prop :=
  sep = [SOH] \/ sep = [PIPE]
  \/ (sep <> [] /\ forallb is_space sep = true).

(** [s] put in front of the first piece of a split. *)
Definition prepend (s : str) (pieces : list str) : list str :=
  match pieces with
  | w :: r => (s ++ w) :: r
  | [] => [s]
  end.

(** ** Sample input *)

Definition order_line_A1 : str :=
  py "35=D" ++ SOH :: py "11=A1" ++ SOH :: py "40=2" ++
  SOH :: py "60=20250910-08:00:00.377" ++ SOH :: py "55=XYZ" ++
  SOH :: py "54=1" ++ SOH :: py "38=100" ++ SOH :: py "44=10.50".

(** The fill line with the byte of code 6 after [41=A1], as the scenario
    spells it. *)
Definition fill_line_A1_as_spelled : str :=
  py "35=8" ++ SOH :: py "41=A1" ++ 6 :: py "=10.40" ++
  SOH :: py "30=NASDAQ" ++ SOH :: py "150=2" ++ SOH :: py "39=2" ++
  SOH :: py "60=20250910-08:00:00.500".

(** The fill line with a separator and then tag 6. *)
Definition fill_line_A1 : str :=
  py "35=8" ++ SOH :: py "41=A1" ++ SOH :: py "6=10.40" ++
  SOH :: py "30=NASDAQ" ++ SOH :: py "150=2" ++ SOH :: py "39=2" ++
  SOH :: py "60=20250910-08:00:00.500".


(** ** Classification, as the tests of [load_orders_and_fills] make it *)

(** [msg] passes every test on the new-order path, under identifier [c]. *)
Definition qualifying_order (msg : pydict) (c : str) : Prop :=
  msg !! TAG_MSGTYPE = Some MSG_NEW_ORDER_SINGLE
  /\ msg !! TAG_CLORDID = Some c /\ c <> []
  /\ msg !! TAG_ORDTYPE = Some ORDTYPE_LIMIT.

(** [msg] passes every test on the execution-report path. *)
Definition qualifying_fill (msg : pydict) : Prop :=
  msg !! TAG_MSGTYPE = Some MSG_EXEC_REPORT
  /\ msg !! TAG_EXECTYPE = Some EXECTYPE_FILL
  /\ msg !! TAG_ORDSTATUS = Some ORDSTATUS_FILLED.

#[global] Instance qualifying_order_dec msg c : Decision (qualifying_order msg c).
Proof. unfold qualifying_order. apply _. Defined.

#[global] Instance qualifying_fill_dec msg : Decision (qualifying_fill msg).
Proof. unfold qualifying_fill. apply _. Defined.

(** What one line does to the order store. *)
Definition store_step (o : order_store) (line : str) : order_store :=
  (load_line (o, []) line).1.

(** ** Further sample lines, pipe-delimited *)

(** An order and a fill that carry no timestamp and no venue. *)
Definition bare_order_line : str := py "35=D|11=A1|40=2".
Definition bare_fill_line : str := py "35=8|41=A1|150=2|39=2".

(** A fill whose tag 41 is present with an empty value. *)
Definition fill_line_empty_orig : str :=
  py "35=8|41=|11=A1|150=2|39=2|60=20250910-08:00:00.500|6=10.40|30=NASDAQ".

(** Two orders under one identifier, the later one without a symbol, and a
    fill that echoes a symbol. *)
Definition order_line_old : str :=
  py "35=D|11=A1|40=2|60=20250910-08:00:00.100|55=OLD|54=1|38=100|44=10.50".
Definition order_line_new : str :=
  py "35=D|11=A1|40=2|60=20250910-08:00:00.200|54=2|38=200|44=11.00".
Definition fill_line_echo : str :=
  py "35=8|41=A1|150=2|39=2|55=ECHO|60=20250910-08:00:00.500|6=10.40|30=NASDAQ".

(** A full fill that repeats an order type other than limit. *)
Definition fill_line_market : str :=
  py "35=8|41=A1|150=2|39=2|40=1|60=20250910-08:00:00.500|6=10.40|30=NASDAQ".

(** A partial fill and a market order. *)
Definition partial_fill_line : str :=
  py "35=8|41=A1|150=1|39=1|60=20250910-08:00:00.500|6=10.40|30=NASDAQ".
Definition market_order_line : str :=
  py "35=D|11=A1|40=1|60=20250910-08:00:00.377|55=XYZ|54=1|38=100".

(** ** main *)

(** The records handed to the csv writer, in the order of the two calls:
    [writer.writerow(HEADER)], then [writer.writerows(rows)]. *)
Definition main_records (lines : list str) : list (list str) :=
  HEADER :: fix_rows lines.

(** The keys of the dictionary stored for an order. *)
Definition ORDER_TAGS : list str :=
  [ TAG_CLORDID; TAG_TRANSACTTIME; TAG_SYMBOL; TAG_SIDE; TAG_ORDERQTY;
    TAG_PRICE; TAG_ORDTYPE ].

(** A line on which the loading pass does something: its message passes
    every test of the new-order path, under the identifier it carries, or
    every test of the execution-report path. *)
Definition relevant (line : str) : Prop :=
  qualifying_fill (parse_fix_line line)
  \/ qualifying_order (parse_fix_line line)
                      (get_or_empty (parse_fix_line line) TAG_CLORDID).

#[global] Instance relevant_dec line : Decision (relevant line).
Proof. unfold relevant. apply _. Defined.

(** The rows a single fill contributes: one or none. *)
Definition rows_of_fill (orders_by_id : order_store) (ex : pydict)
  : list (list str) :=
  build_rows orders_by_id [ex].

(** Sample lines with separators inside a value. *)
Definition soh_line_with_pipe : str :=
  py "35=D" ++ SOH :: py "58=a|b c=d".
Definition pipe_line_with_space : str := py "35=D|58=b c=d".

(** * Properties *)

Ltac tag_ne := let H := fresh in intros H; vm_compute in H; discriminate H.

Section LoadMsg.
Implicit Types (o : order_store) (f : list pydict) (msg : pydict).

Lemma load_msg_order o f msg c :
  qualifying_order msg c ->
  load_msg (o, f) msg = (<[c := order_entry msg c ORDTYPE_LIMIT]> o, f).
Proof.
  intros (Ht & Hc & Hne & Hl). unfold load_msg.
  destruct (decide (msg = ∅)) as [->|_].
  { by rewrite lookup_empty in Ht. }
  rewrite decide_True by done. rewrite Hc, Hl.
  destruct c as [|x c]; [done|]. by rewrite decide_True.
Qed.

Lemma load_msg_fill o f msg :
  qualifying_fill msg -> load_msg (o, f) msg = (o, f ++ [msg]).
Proof.
  intros (Ht & He & Hs). unfold load_msg.
  destruct (decide (msg = ∅)) as [->|_].
  { by rewrite lookup_empty in Ht. }
  rewrite Ht. rewrite decide_False by tag_ne.
  rewrite decide_True by done. by rewrite !decide_True.
Qed.

Lemma load_msg_ignore o f msg :
  (forall c, ~ qualifying_order msg c) -> ~ qualifying_fill msg ->
  load_msg (o, f) msg = (o, f).
Proof.
  intros Ho Hf. unfold load_msg.
  repeat (case_decide || case_match); try done.
  - subst. exfalso. eapply Ho. by repeat split.
  - exfalso. apply Hf. by repeat split.
Qed.
End LoadMsg.

(** ** The two components of the loading pass, taken apart *)

Section Load.
Implicit Types (o : order_store) (f : list pydict) (msg : pydict).
Implicit Types (line c : str) (lines : list str).

Lemma qualifying_order_fill_excl msg c :
  qualifying_order msg c -> qualifying_fill msg -> False.
Proof. intros (Ht & _) (Ht' & _). rewrite Ht in Ht'. vm_compute in Ht'. discriminate Ht'. Qed.

Lemma qualifying_order_id_unique msg c c' :
  qualifying_order msg c -> qualifying_order msg c' -> c = c'.
Proof. intros (_ & Hc & _) (_ & Hc' & _). congruence. Qed.

Lemma load_msg_cases o f msg :
  (exists c, qualifying_order msg c
     /\ load_msg (o, f) msg = (<[c := order_entry msg c ORDTYPE_LIMIT]> o, f))
  \/ (qualifying_fill msg /\ (forall c, ~ qualifying_order msg c)
      /\ load_msg (o, f) msg = (o, f ++ [msg]))
  \/ ((forall c, ~ qualifying_order msg c) /\ ~ qualifying_fill msg
      /\ load_msg (o, f) msg = (o, f)).
Proof.
  destruct (decide (qualifying_fill msg)) as [Hf|Hf].
  { right; left. split_and!; [done| |by apply load_msg_fill].
    intros c Hc. eapply qualifying_order_fill_excl; eauto. }
  destruct (msg !! TAG_CLORDID) as [c|] eqn:Hc.
  - destruct (decide (qualifying_order msg c)) as [Ho|Ho].
    + left. exists c. split; [done|]. by apply load_msg_order.
    + right; right. split_and!; [|done|]; cycle 1.
      * apply load_msg_ignore; [|done].
        intros c' Hc'. pose proof Hc' as (_ & Hc'' & _). congruence.
      * intros c' Hc'. pose proof Hc' as (_ & Hc'' & _). congruence.
  - assert (forall c, ~ qualifying_order msg c) as Hno.
    { intros c (_ & Hc' & _). congruence. }
    right; right. split_and!; [done..|]. by apply load_msg_ignore.
Qed.

Lemma load_line_split o f line :
  load_line (o, f) line
  = (store_step o line, f ++ filter qualifying_fill [parse_fix_line line]).
Proof.
  unfold store_step, load_line.
  destruct (load_msg_cases o f (parse_fix_line line))
    as [(c & Hc & ->)|[(Hf & Hno & ->)|(Hno & Hf & ->)]].
  - rewrite (load_msg_order o [] _ c Hc). simpl.
    rewrite filter_cons_False, filter_nil, app_nil_r; [done|].
    intros ?. eapply qualifying_order_fill_excl; eauto.
  - rewrite (load_msg_fill o [] _ Hf). simpl.
    by rewrite filter_cons_True, filter_nil.
  - rewrite (load_msg_ignore o [] _ Hno Hf). simpl.
    by rewrite filter_cons_False, filter_nil, app_nil_r.
Qed.

Lemma fold_load_line_split lines o f :
  fold_left load_line lines (o, f)
  = (fold_left store_step lines o,
     f ++ filter qualifying_fill (parse_fix_line <$> lines)).
Proof.
  revert o f. induction lines as [|line lines IH]; intros o f.
  - cbn [fold_left]. by rewrite fmap_nil, filter_nil, app_nil_r.
  - cbn [fold_left]. rewrite load_line_split, IH, fmap_cons. f_equal.
    rewrite <- app_assoc. f_equal.
    change (parse_fix_line line :: (parse_fix_line <$> lines))
      with ([parse_fix_line line] ++ (parse_fix_line <$> lines)).
    by rewrite filter_app.
Qed.

(** The loading pass in closed form: the store is a fold over the lines,
    the fills are the qualifying messages in input order. *)
Lemma load_orders_and_fills_split lines :
  load_orders_and_fills lines
  = (fold_left store_step lines ∅,
     filter qualifying_fill (parse_fix_line <$> lines)).
Proof. unfold load_orders_and_fills. by rewrite fold_load_line_split. Qed.

Lemma store_step_order o line c :
  qualifying_order (parse_fix_line line) c ->
  store_step o line
  = <[c := order_entry (parse_fix_line line) c ORDTYPE_LIMIT]> o.
Proof.
  intros Hc. unfold store_step, load_line.
  by rewrite (load_msg_order o [] _ c Hc).
Qed.

Lemma store_step_no_order o line :
  (forall c, ~ qualifying_order (parse_fix_line line) c) ->
  store_step o line = o.
Proof.
  intros Hno. unfold store_step, load_line.
  destruct (load_msg_cases o [] (parse_fix_line line))
    as [(c & Hc & ->)|[(Hf & _ & ->)|(_ & Hf & ->)]]; try done.
  by destruct (Hno c).
Qed.

Lemma store_step_lookup_other o line c :
  ~ qualifying_order (parse_fix_line line) c ->
  store_step o line !! c = o !! c.
Proof.
  intros Hc. unfold store_step, load_line.
  destruct (load_msg_cases o [] (parse_fix_line line))
    as [(c' & Hc' & ->)|[(Hf & _ & ->)|(_ & Hf & ->)]]; try done.
  simpl. apply lookup_insert_ne. by intros ->.
Qed.

Lemma fold_store_step_lookup_other lines o c :
  Forall (fun line => ~ qualifying_order (parse_fix_line line) c) lines ->
  fold_left store_step lines o !! c = o !! c.
Proof.
  revert o. induction lines as [|line lines IH]; intros o Hall; [done|].
  inversion_clear Hall as [|? ? Hl Hls]. simpl.
  rewrite IH by done. by apply store_step_lookup_other.
Qed.

(** Every entry of the store was written by a qualifying order line of
    the input, under that line's identifier. *)
Lemma fold_store_step_entries lines o c e :
  fold_left store_step lines o !! c = Some e ->
  o !! c = Some e
  \/ exists line, line ∈ lines
       /\ qualifying_order (parse_fix_line line) c
       /\ e = order_entry (parse_fix_line line) c ORDTYPE_LIMIT.
Proof.
  revert o. induction lines as [|line lines IH]; intros o He; [by left|].
  simpl in He. apply IH in He as [He|(l & Hin & Hq & ->)].
  - destruct (decide (qualifying_order (parse_fix_line line) c)) as [Hq|Hq].
    + rewrite (store_step_order _ _ _ Hq), lookup_insert_eq in He.
      right. exists line. split_and!; [left|done|congruence].
    + rewrite store_step_lookup_other in He by done. by left.
  - right. exists l. split_and!; [by right|done..].
Qed.
End Load.

(** ** The stored entry and the correlation step *)

Section Correlate.
Implicit Types (orders : order_store) (ex order msg : pydict).
Implicit Types (c : str) (row : list str).

Lemma order_entry_clordid msg c t :
  order_entry msg c t !! TAG_CLORDID = Some c.
Proof.
  unfold order_entry. rewrite !lookup_insert_ne by tag_ne.
  apply lookup_insert_eq.
Qed.

Lemma order_entry_ordtype msg c t :
  order_entry msg c t !! TAG_ORDTYPE = Some t.
Proof. unfold order_entry. apply lookup_insert_eq. Qed.

Lemma order_entry_nonempty msg c t : order_entry msg c t <> ∅.
Proof.
  intros H. pose proof (order_entry_ordtype msg c t) as Ht.
  rewrite H, lookup_empty in Ht. discriminate Ht.
Qed.

Lemma order_entry_get msg c t k :
  k ∈ [TAG_TRANSACTTIME; TAG_SYMBOL; TAG_SIDE; TAG_ORDERQTY; TAG_PRICE] ->
  get_or_empty (order_entry msg c t) k = get_or_empty msg k.
Proof.
  intros Hk. unfold order_entry, get_or_empty at 1.
  repeat (apply elem_of_cons in Hk as [->|Hk];
          [rewrite ?lookup_insert_ne by tag_ne; by rewrite lookup_insert_eq|]).
  by apply elem_of_nil in Hk.
Qed.

(** The row made from a stored entry and a fill, column by column. *)
Lemma compose_row_order_entry msg c t ex :
  compose_row (order_entry msg c t) ex
  = [ c;
      get_or_empty msg TAG_TRANSACTTIME;
      get_or_empty ex TAG_TRANSACTTIME;
      str_or (get_or_empty msg TAG_SYMBOL) (get_or_empty ex TAG_SYMBOL);
      str_or (get_or_empty msg TAG_SIDE) (get_or_empty ex TAG_SIDE);
      str_or (get_or_empty msg TAG_ORDERQTY) (get_or_empty ex TAG_ORDERQTY);
      get_or_empty msg TAG_PRICE;
      get_or_empty ex TAG_AVGPX;
      get_or_empty ex TAG_LASTMKT ].
Proof.
  unfold compose_row.
  rewrite (order_entry_get _ _ _ TAG_TRANSACTTIME),
    (order_entry_get _ _ _ TAG_SYMBOL), (order_entry_get _ _ _ TAG_SIDE),
    (order_entry_get _ _ _ TAG_ORDERQTY), (order_entry_get _ _ _ TAG_PRICE)
    by (rewrite !elem_of_cons; tauto).
  unfold get_or_empty at 1. by rewrite order_entry_clordid.
Qed.

Lemma truthy_opt_Some (o : option str) :
  truthy_opt o = true <-> exists s, o = Some s /\ s <> [].
Proof.
  destruct o as [[|x s]|]; simpl; split; try done.
  - by intros (s & [= <-] & ?).
  - intros _. by eexists.
  - by intros (s & ? & ?).
Qed.

(** When the loop body appends a row. *)
Lemma build_row_Some orders ex row :
  build_row orders ex = Some row <->
  exists c order,
    resolve_clid ex = Some c /\ c <> []
    /\ orders !! c = Some order /\ order <> ∅
    /\ (ex !! TAG_ORDTYPE = None \/ ex !! TAG_ORDTYPE = Some ORDTYPE_LIMIT)
    /\ row = compose_row order ex.
Proof.
  unfold build_row. split.
  - destruct (resolve_clid ex) as [[|x c]|] eqn:Hc; simpl; try done.
    destruct (orders !! (x :: c)) as [order|] eqn:Ho; [|done].
    case_decide as He; [done|].
    destruct (ex !! TAG_ORDTYPE) as [t|] eqn:Ht.
    + case_decide as Hl; [|done]. intros [= <-]. subst t.
      exists (x :: c), order. split_and!; auto.
    + intros [= <-]. exists (x :: c), order. split_and!; auto.
  - intros (c & order & -> & Hne & -> & He & Ht & ->).
    destruct c as [|x c]; [done|]. simpl.
    rewrite decide_False by done.
    destruct Ht as [->| ->]; [done|]. by rewrite decide_True.
Qed.

Lemma build_rows_cons_None orders ex fills :
  build_row orders ex = None ->
  build_rows orders (ex :: fills) = build_rows orders fills.
Proof. intros H. simpl. by rewrite H. Qed.

Lemma build_rows_cons_Some orders ex fills row :
  build_row orders ex = Some row ->
  build_rows orders (ex :: fills) = row :: build_rows orders fills.
Proof. intros H. simpl. by rewrite H. Qed.

Lemma elem_of_build_rows orders fills row :
  row ∈ build_rows orders fills <->
  exists ex, ex ∈ fills /\ build_row orders ex = Some row.
Proof.
  induction fills as [|ex fills IH]; simpl.
  - split; [by intros ?%elem_of_nil|by intros (? & ?%elem_of_nil & _)].
  - destruct (build_row orders ex) as [r|] eqn:Hr.
    + rewrite elem_of_cons, IH. split.
      * intros [->|(e & Hin & He)]; [exists ex|exists e];
          (split; [|done]); by constructor.
      * intros (e & [->|Hin]%elem_of_cons & He); [left; congruence|].
        right. eauto.
    + rewrite IH. split.
      * intros (e & Hin & He). exists e. split; [by right|done].
      * intros (e & [->|Hin]%elem_of_cons & He); [congruence|eauto].
Qed.

(** Rows of the whole program come from a qualifying fill line and the
    final store. *)
Lemma elem_of_fix_rows lines row :
  row ∈ fix_rows lines <->
  exists line, line ∈ lines
    /\ qualifying_fill (parse_fix_line line)
    /\ build_row (load_orders_and_fills lines).1 (parse_fix_line line)
       = Some row.
Proof.
  unfold fix_rows. rewrite load_orders_and_fills_split. simpl.
  rewrite elem_of_build_rows. split.
  - intros (ex & [Hq Hin]%list_elem_of_filter & Hr).
    apply list_elem_of_fmap in Hin as (line & -> & Hin). eauto.
  - intros (line & Hin & Hq & Hr). exists (parse_fix_line line).
    split; [|done]. apply list_elem_of_filter. split; [done|].
    apply list_elem_of_fmap. eauto.
Qed.

(** Entries of the final store. *)
Lemma store_entries lines c order :
  (load_orders_and_fills lines).1 !! c = Some order ->
  exists line, line ∈ lines
    /\ qualifying_order (parse_fix_line line) c
    /\ order = order_entry (parse_fix_line line) c ORDTYPE_LIMIT.
Proof.
  rewrite load_orders_and_fills_split. simpl.
  intros [He|H]%fold_store_step_entries; [|done].
  by rewrite lookup_empty in He.
Qed.

(** The entry under [c] is the one written by the last qualifying order
    line that carries [c]. *)
Lemma store_last_order pre line post c :
  qualifying_order (parse_fix_line line) c ->
  Forall (fun l => ~ qualifying_order (parse_fix_line l) c) post ->
  (load_orders_and_fills (pre ++ line :: post)).1 !! c
  = Some (order_entry (parse_fix_line line) c ORDTYPE_LIMIT).
Proof.
  intros Hq Hpost. rewrite load_orders_and_fills_split. simpl.
  rewrite fold_left_app. simpl.
  rewrite fold_store_step_lookup_other by done.
  rewrite (store_step_order _ _ _ Hq). apply lookup_insert_eq.
Qed.
End Correlate.

(** ** The tokenizer on rendered messages *)

Section Tokenizer.
Implicit Types (s t sep : str) (ss : list str) (x c : char).

Lemma plain_clean s : plain s = true -> clean s.
Proof.
  unfold plain, clean. rewrite forallb_forall, Forall_forall.
  intros H x Hx%list_elem_of_In. apply H in Hx.
  apply andb_prop in Hx as [[H1 H2]%andb_prop H3].
  apply negb_true_iff in H1, H2, H3.
  apply N.eqb_neq in H1, H2. done.
Qed.

Lemma contains_false c s :
  contains c s = false <-> Forall (fun x => x <> c) s.
Proof.
  unfold contains. induction s as [|x s IH]; simpl.
  - split; [constructor|done].
  - rewrite orb_false_iff, IH, Forall_cons, N.eqb_neq.
    split; intros [? ?]; split; congruence.
Qed.

Lemma contains_app c s t :
  contains c (s ++ t) = contains c s || contains c t.
Proof. apply existsb_app. Qed.

Lemma split_on_nonempty c s : split_on c s <> [].
Proof.
  destruct s as [|x s]; simpl; [done|].
  destruct (x =? c); [done|]. by destruct (split_on c s).
Qed.

Lemma split_on_app c s t :
  Forall (fun x => x <> c) s ->
  split_on c (s ++ t) = prepend s (split_on c t).
Proof.
  induction 1 as [|x s Hx _ IH]; simpl.
  - pose proof (split_on_nonempty c t). by destruct (split_on c t).
  - apply N.eqb_neq in Hx. rewrite Hx, IH.
    by destruct (split_on c t).
Qed.

Lemma split_on_join c s ss :
  Forall (Forall (fun x => x <> c)) (s :: ss) ->
  split_on c (join [c] (s :: ss)) = s :: ss.
Proof.
  revert s. induction ss as [|s2 ss IH]; intros s Hall.
  - apply Forall_cons in Hall as [Hs _]. simpl.
    rewrite <- (app_nil_r s) at 1. rewrite split_on_app by done.
    simpl. by rewrite app_nil_r.
  - apply Forall_cons in Hall as [Hs Hall].
    change (join [c] (s :: s2 :: ss))
      with (s ++ c :: join [c] (s2 :: ss)).
    rewrite split_on_app by done.
    cbn [split_on]. rewrite N.eqb_refl, IH by done.
    simpl. by rewrite app_nil_r.
Qed.

Lemma re_split_ws_from_nonempty b s : re_split_ws_from b s <> [].
Proof.
  revert b. induction s as [|x s IH]; intros b; simpl; [done|].
  destruct (is_space x).
  - destruct b; [apply IH|done].
  - by destruct (re_split_ws_from false s).
Qed.

Lemma re_split_ws_from_app b s t :
  s <> [] -> Forall (fun x => is_space x = false) s ->
  re_split_ws_from b (s ++ t) = prepend s (re_split_ws_from false t).
Proof.
  intros Hne Hs. revert b Hne.
  induction Hs as [|x s Hx Hs IH]; intros b Hne; [done|].
  simpl. rewrite Hx. destruct s as [|y s].
  - simpl. pose proof (re_split_ws_from_nonempty false t).
    by destruct (re_split_ws_from false t).
  - rewrite IH by done. by destruct (re_split_ws_from false t).
Qed.

Lemma re_split_ws_from_run sep t :
  Forall (fun x => is_space x = true) sep ->
  re_split_ws_from true (sep ++ t) = re_split_ws_from true t.
Proof. induction 1 as [|x sep Hx _ IH]; simpl; [done|]. by rewrite Hx. Qed.

Lemma re_split_ws_join b sep s ss :
  sep <> [] -> Forall (fun x => is_space x = true) sep ->
  Forall (fun s => s <> [] /\ Forall (fun x => is_space x = false) s)
         (s :: ss) ->
  re_split_ws_from b (join sep (s :: ss)) = s :: ss.
Proof.
  intros Hne Hsep. revert b s. induction ss as [|s2 ss IH]; intros b s Hall.
  - apply Forall_cons in Hall as [[Hs1 Hs2] _]. simpl.
    rewrite <- (app_nil_r s) at 1. rewrite re_split_ws_from_app by done.
    simpl. by rewrite app_nil_r.
  - apply Forall_cons in Hall as [[Hs1 Hs2] Hall].
    change (join sep (s :: s2 :: ss))
      with (s ++ sep ++ join sep (s2 :: ss)).
    rewrite re_split_ws_from_app by done.
    destruct sep as [|w sep]; [done|].
    apply Forall_cons in Hsep as [Hw Hsep].
    cbn [app re_split_ws_from]. rewrite Hw.
    rewrite re_split_ws_from_run, IH by done.
    simpl. by rewrite app_nil_r.
Qed.

Lemma lstrip_nonspace x s : is_space x = false -> lstrip (x :: s) = x :: s.
Proof. intros H. simpl. by rewrite H. Qed.

Lemma rstrip_app t s :
  s <> [] -> Forall (fun x => is_space x = false) s ->
  rstrip (t ++ s) = t ++ s.
Proof.
  intros Hne Hs. unfold rstrip. rewrite rev_app_distr.
  destruct (rev s) as [|x r] eqn:Hr.
  { apply (f_equal (@rev N)) in Hr. rewrite rev_involutive in Hr.
    by subst s. }
  assert (is_space x = false) as Hx.
  { rewrite Forall_forall in Hs. apply Hs.
    apply list_elem_of_In, (proj2 (in_rev s x)). rewrite Hr. by left. }
  cbn [app]. rewrite lstrip_nonspace by done.
  change (x :: r ++ rev t) with ((x :: r) ++ rev t).
  by rewrite <- Hr, <- rev_app_distr, rev_involutive.
Qed.

Lemma join_last sep s ss :
  exists t u, u ∈ s :: ss /\ join sep (s :: ss) = t ++ u.
Proof.
  revert s. induction ss as [|s2 ss IH]; intros s.
  - exists [], s. split; [left|done].
  - destruct (IH s2) as (t & u & Hu & Ht).
    exists (s ++ sep ++ t), u. split; [by right|].
    change (join sep (s :: s2 :: ss))
      with (s ++ sep ++ join sep (s2 :: ss)).
    by rewrite Ht, <- !app_assoc.
Qed.

Lemma join_first sep s ss :
  exists t, join sep (s :: ss) = s ++ t.
Proof.
  destruct ss as [|s2 ss].
  - exists []. simpl. by rewrite app_nil_r.
  - by exists (sep ++ join sep (s2 :: ss)).
Qed.

Lemma strip_join sep s ss :
  Forall (fun s => s <> [] /\ Forall (fun x => is_space x = false) s)
         (s :: ss) ->
  strip (join sep (s :: ss)) = join sep (s :: ss).
Proof.
  intros Hall. unfold strip.
  assert (lstrip (join sep (s :: ss)) = join sep (s :: ss)) as ->.
  { destruct (join_first sep s ss) as (t & ->).
    apply Forall_cons in Hall as [[Hne Hs] _].
    destruct s as [|x s]; [done|].
    apply Forall_cons in Hs as [Hx _]. by apply lstrip_nonspace. }
  destruct (join_last sep s ss) as (t & u & Hu & ->).
  rewrite Forall_forall in Hall. destruct (Hall u Hu) as [? ?].
  by apply rstrip_app.
Qed.

Lemma contains_join c sep s ss :
  contains c sep = false ->
  Forall (fun s => contains c s = false) (s :: ss) ->
  contains c (join sep (s :: ss)) = false.
Proof.
  intros Hsep. revert s. induction ss as [|s2 ss IH]; intros s Hall.
  - by apply Forall_cons in Hall as [? _].
  - apply Forall_cons in Hall as [Hs Hall].
    change (join sep (s :: s2 :: ss))
      with (s ++ sep ++ join sep (s2 :: ss)).
    by rewrite !contains_app, Hs, Hsep, IH.
Qed.

Lemma contains_join_sep c s s2 ss :
  contains c (join [c] (s :: s2 :: ss)) = true.
Proof.
  change (join [c] (s :: s2 :: ss)) with (s ++ c :: join [c] (s2 :: ss)).
  rewrite contains_app. unfold contains at 2. simpl.
  rewrite N.eqb_refl. apply orb_true_r.
Qed.

Lemma space_not_separator x :
  is_space x = true -> x <> SOH /\ x <> PIPE.
Proof.
  intros Hx. split; intros ->; vm_compute in Hx; discriminate Hx.
Qed.

(** The separator cascade recovers the pieces that were joined. *)
Lemma split_fields_join sep s ss :
  is_separator sep ->
  Forall (fun s => s <> [] /\ clean s) (s :: ss) ->
  split_fields (join sep (s :: ss)) = s :: ss.
Proof.
  intros Hsep Hall.
  assert (Forall (fun s => s <> []
                           /\ Forall (fun x => is_space x = false) s)
                 (s :: ss)) as Hns.
  { eapply Forall_impl; [exact Hall|]. intros u [? Hu]. split; [done|].
    eapply Forall_impl; [exact Hu|]. by intros x (_ & _ & ?). }
  assert (forall c, c = SOH \/ c = PIPE ->
            Forall (Forall (fun x => x <> c)) (s :: ss)) as Hnc.
  { intros c Hc. eapply Forall_impl; [exact Hall|]. intros u [_ Hu].
    eapply Forall_impl; [exact Hu|]. intros x (? & ? & _).
    by destruct Hc as [-> | ->]. }
  assert (forall c, c = SOH \/ c = PIPE ->
            Forall (fun s => contains c s = false) (s :: ss)) as Hcf.
  { intros c Hc. eapply Forall_impl; [exact (Hnc c Hc)|].
    intros u Hu. by apply contains_false. }
  assert (split_fields (join [SOH] [s]) = [s]) as Hone.
  { unfold split_fields. simpl.
    pose proof (Hcf SOH (or_introl eq_refl)) as [-> _]%Forall_cons.
    pose proof (Hcf PIPE (or_intror eq_refl)) as [-> _]%Forall_cons.
    apply Forall_cons in Hns as [[? ?] _]. unfold re_split_ws.
    rewrite <- (app_nil_r s) at 1. rewrite re_split_ws_from_app by done.
    simpl. by rewrite app_nil_r. }
  destruct ss as [|s2 ss]; [exact Hone|].
  unfold split_fields.
  destruct Hsep as [->|[->|[Hne Hws]]].
  - rewrite contains_join_sep. apply split_on_join. by apply Hnc; left.
  - rewrite contains_join
      by first [by apply Hcf; left|by vm_compute].
    rewrite contains_join_sep. apply split_on_join. by apply Hnc; right.
  - assert (Forall (fun x => is_space x = true) sep) as Hws'.
    { apply Forall_forall. intros x Hx%list_elem_of_In.
      rewrite forallb_forall in Hws. by apply Hws. }
    assert (forall c, c = SOH \/ c = PIPE -> contains c sep = false) as Hsc.
    { intros c Hc. apply contains_false.
      eapply Forall_impl; [exact Hws'|]. intros x [? ?]%space_not_separator.
      by destruct Hc as [-> | ->]. }
    rewrite !contains_join
      by first [by apply Hsc; auto|by apply Hcf; auto].
    by apply re_split_ws_join.
Qed.

Lemma split_eq1_field k v :
  Forall (fun x => x <> EQUALS) k ->
  split_eq1 (field_text (k, v)) = Some (k, v).
Proof.
  unfold field_text. cbn [fst snd].
  induction 1 as [|x k Hx _ IH]; cbn [app split_eq1].
  - by rewrite N.eqb_refl.
  - apply N.eqb_neq in Hx. by rewrite Hx, IH.
Qed.

Lemma parse_field_text (m : pydict) k v :
  Forall (fun x => x <> EQUALS) k ->
  parse_field m (field_text (k, v)) = <[k := v]> m.
Proof.
  intros Hk. unfold parse_field. rewrite split_eq1_field by done.
  unfold field_text. simpl. by destruct k.
Qed.

Lemma fold_parse_field_text (m : pydict) (l : list (str * str)) :
  Forall (fun kv => Forall (fun x => x <> EQUALS) kv.1) l ->
  fold_left parse_field (List.map field_text l) m
  = fold_left (fun m kv => <[kv.1 := kv.2]> m) l m.
Proof.
  intros Hl. revert m. induction Hl as [|[k v] l Hk _ IH]; intros m; [done|].
  cbn [List.map fold_left]. by rewrite parse_field_text, IH.
Qed.

Lemma field_text_clean k v :
  plain_tag k = true -> plain v = true ->
  field_text (k, v) <> [] /\ clean (field_text (k, v)).
Proof.
  intros [Hk _]%andb_prop Hv. unfold field_text. simpl. split.
  - by destruct k.
  - apply Forall_app. split; [by apply plain_clean|].
    apply Forall_cons. split; [|by apply plain_clean].
    split_and!; by vm_compute.
Qed.

(** Tokenizing a rendered list of fields assigns the fields in order. *)
Lemma parse_fix_line_render sep (l : list (str * str)) :
  is_separator sep ->
  Forall (fun kv => plain_tag kv.1 = true /\ plain kv.2 = true) l ->
  parse_fix_line (render sep l) = assign_fields l.
Proof.
  intros Hsep Hl. unfold parse_fix_line, render, assign_fields.
  destruct l as [|kv l]; [done|].
  assert (Forall (fun s => s <> [] /\ clean s)
                 (List.map field_text (kv :: l))) as Hall.
  { apply Forall_map. eapply Forall_impl; [exact Hl|].
    intros [k v] [? ?]. by apply field_text_clean. }
  cbn [List.map] in *. rewrite strip_join; cycle 1.
  { eapply Forall_impl; [exact Hall|]. intros u [? Hu]. split; [done|].
    eapply Forall_impl; [exact Hu|]. by intros x (_ & _ & ?). }
  destruct (join sep (field_text kv :: List.map field_text l)) eqn:Hj.
  { destruct (join_first sep (field_text kv) (List.map field_text l))
      as (t & Ht). rewrite Hj in Ht.
    apply Forall_cons in Hall as [[Hne _] _].
    symmetry in Ht. by apply app_eq_nil in Ht as [? _]. }
  rewrite <- Hj, split_fields_join by done.
  apply (fold_parse_field_text ∅ (kv :: l)).
  eapply Forall_impl; [exact Hl|]. intros [k v] [[_ Hk]%andb_prop _].
  apply negb_true_iff in Hk. by apply contains_false in Hk.
Qed.

(** Assigning the entries of a dictionary, in any order, rebuilds it. *)
Lemma assign_fields_map_to_list (m : pydict) (l : list (str * str)) :
  l ≡ₚ map_to_list m -> assign_fields l = m.
Proof.
  intros Hl. unfold assign_fields.
  rewrite <- fold_left_rev_right.
  change (fold_right (fun (y : str * str) (x : pydict) => <[y.1:=y.2]> x)
                     ∅ (rev l))
    with (list_to_map (rev l) : pydict).
  transitivity (list_to_map (map_to_list m) : pydict);
    [|apply list_to_map_to_list].
  apply list_to_map_proper.
  - rewrite <- Permutation_rev, Hl. apply NoDup_fst_map_to_list.
  - by rewrite <- Permutation_rev.
Qed.
End Tokenizer.

(** * The claims *)

Section Claims.
Implicit Types (orders : order_store) (ex order msg : pydict).
Implicit Types (c line : str) (row : list str) (lines : list str).

(** C1, as stated, fails: an order line without tag 60 followed by a full
    fill without tags 60 and 30 yields a row whose OrderTransactTime,
    ExecutionTransactTime and LastMkt columns are all the empty string. *)
Lemma C1_empty_columns_counterexample :
  exists row,
    fix_rows [bare_order_line; bare_fill_line] = [row]
    /\ OrderTransactTime row = []
    /\ ExecutionTransactTime row = []
    /\ LastMkt row = [].
Proof. eexists. split; [by vm_compute|]. by vm_compute. Qed.

(** C1, amended: every emitted row has a non-empty order identifier, and
    its OrderTransactTime, ExecutionTransactTime and LastMkt columns are
    the value of tag 60 of a qualifying order line under that identifier,
    and the values of tags 60 and 30 of a qualifying fill line, each read
    with the empty string as default when the tag is missing. *)
Theorem C1_row_columns_origin lines row :
  row ∈ fix_rows lines ->
  OrderID row <> []
  /\ exists oline fline,
       oline ∈ lines /\ fline ∈ lines
       /\ qualifying_order (parse_fix_line oline) (OrderID row)
       /\ qualifying_fill (parse_fix_line fline)
       /\ OrderTransactTime row
          = get_or_empty (parse_fix_line oline) TAG_TRANSACTTIME
       /\ ExecutionTransactTime row
          = get_or_empty (parse_fix_line fline) TAG_TRANSACTTIME
       /\ LastMkt row = get_or_empty (parse_fix_line fline) TAG_LASTMKT.
Proof.
  intros (fline & Hfin & Hqf & Hrow)%elem_of_fix_rows.
  apply build_row_Some in Hrow
    as (c & order & Hc & Hne & Ho & _ & _ & ->).
  apply store_entries in Ho as (oline & Hoin & Hqo & ->).
  rewrite compose_row_order_entry.
  split; [done|]. exists oline, fline. by split_and!.
Qed.

Lemma C1_row_columns_origin_witness :
  let lines := [order_line_A1; fill_line_A1] in
  let row := compose_row (parse_fix_line order_line_A1)
                         (parse_fix_line fill_line_A1) in
  row ∈ fix_rows lines
  /\ OrderID row <> []
  /\ exists oline fline,
       oline ∈ lines /\ fline ∈ lines
       /\ qualifying_order (parse_fix_line oline) (OrderID row)
       /\ qualifying_fill (parse_fix_line fline)
       /\ OrderTransactTime row
          = get_or_empty (parse_fix_line oline) TAG_TRANSACTTIME
       /\ ExecutionTransactTime row
          = get_or_empty (parse_fix_line fline) TAG_TRANSACTTIME
       /\ LastMkt row = get_or_empty (parse_fix_line fline) TAG_LASTMKT.
Proof.
  intros lines row.
  assert (row ∈ fix_rows lines) as Hin.
  { replace (fix_rows lines) with [row] by (by vm_compute).
    apply list_elem_of_here. }
  split; [exact Hin|]. exact (C1_row_columns_origin lines row Hin).
Defined.

(** C2, as stated, fails: in the fill line as the scenario spells it, the
    byte of code 6 follows [41=A1] without a separator, so tag 41 carries
    the value [A1<06>=10.40], tag 6 is absent, the fill matches no stored
    order and no row is emitted. *)
Lemma C2_scenario_as_spelled_counterexample :
  fix_rows [order_line_A1; fill_line_A1_as_spelled] = []
  /\ parse_fix_line fill_line_A1_as_spelled !! TAG_ORIGCLORDID
     = Some (py "A1" ++ 6 :: py "=10.40")
  /\ parse_fix_line fill_line_A1_as_spelled !! TAG_AVGPX = None.
Proof. by vm_compute. Qed.

(** C2, amended: with the fill line [35=8|41=A1|6=10.40|30=NASDAQ|150=2|
    39=2|60=20250910-08:00:00.500], every [|] standing for the byte of
    code 1, the program emits exactly one row: A1, 20250910-08:00:00.377,
    20250910-08:00:00.500, XYZ, 1, 100, 10.50, 10.40, NASDAQ. *)
Theorem C2_scenario :
  fix_rows [order_line_A1; fill_line_A1]
  = [[ py "A1"; py "20250910-08:00:00.377"; py "20250910-08:00:00.500";
       py "XYZ"; py "1"; py "100"; py "10.50"; py "10.40"; py "NASDAQ" ]].
Proof. by vm_compute. Qed.

(** C3, as stated, fails: a full fill that carries tag 41 with an empty
    value has the field present, yet the identifier is taken from tag 11
    and the fill is joined with the order stored under it. *)
Lemma C3_fallback_with_orig_present_counterexample :
  let ex := parse_fix_line fill_line_empty_orig in
  qualifying_fill ex
  /\ ex !! TAG_ORIGCLORDID = Some []
  /\ ex !! TAG_CLORDID = Some (py "A1")
  /\ resolve_clid ex = Some (py "A1")
  /\ exists row,
       fix_rows [order_line_A1; fill_line_empty_orig] = [row]
       /\ OrderID row = py "A1".
Proof.
  split_and!; try by vm_compute.
  eexists. split; by vm_compute.
Qed.

(** C3, amended: for every fill message the identifier is the value of
    tag 41 when that tag is present with a non-empty value; when tag 41 is
    absent or empty it is whatever tag 11 gives; a row is only ever made
    from the order stored under that identifier; and when both tags are
    absent the fill is dropped, whatever the store holds. *)
Theorem C3_resolve_clid ex :
  (forall v, ex !! TAG_ORIGCLORDID = Some v -> v <> [] ->
     resolve_clid ex = Some v)
  /\ (ex !! TAG_ORIGCLORDID = None \/ ex !! TAG_ORIGCLORDID = Some [] ->
      resolve_clid ex = ex !! TAG_CLORDID)
  /\ (forall orders row, build_row orders ex = Some row ->
        exists c order,
          resolve_clid ex = Some c /\ orders !! c = Some order
          /\ row = compose_row order ex)
  /\ (ex !! TAG_ORIGCLORDID = None -> ex !! TAG_CLORDID = None ->
      forall orders fills,
        build_row orders ex = None
        /\ build_rows orders (ex :: fills) = build_rows orders fills).
Proof.
  split_and!.
  - intros v Hv Hne. unfold resolve_clid, opt_or. rewrite Hv.
    by destruct v.
  - intros [H|H]; unfold resolve_clid, opt_or; by rewrite H.
  - intros orders row (c & order & ? & _ & ? & _ & _ & ?)%build_row_Some.
    by exists c, order.
  - intros H41 H11 orders fills.
    assert (build_row orders ex = None) as Hnone.
    { unfold build_row, resolve_clid, opt_or. by rewrite H41, H11. }
    split; [done|]. by apply build_rows_cons_None.
Qed.

Lemma C3_resolve_clid_witness :
  resolve_clid (parse_fix_line fill_line_A1) = Some (py "A1")
  /\ resolve_clid (parse_fix_line fill_line_empty_orig) = Some (py "A1")
  /\ build_rows ∅ [parse_fix_line (py "35=8|150=2|39=2")] = build_rows ∅ [].
Proof.
  split_and!.
  - apply (proj1 (C3_resolve_clid (parse_fix_line fill_line_A1)));
      by vm_compute.
  - rewrite (proj1 (proj2 (C3_resolve_clid
                             (parse_fix_line fill_line_empty_orig))));
      [by vm_compute|right; by vm_compute].
  - apply (proj2 (proj2 (proj2 (C3_resolve_clid
             (parse_fix_line (py "35=8|150=2|39=2")))))); by vm_compute.
Defined.

(** C4: for every finite mapping whose tags hold no SOH, pipe, white space
    or [=] and whose values hold no SOH, pipe or white space, and for every
    enumeration of its entries as fields [tag=value], the line joining the
    fields by SOH, the line joining them by a pipe and the line joining
    them by any non-empty run of white space all tokenize to the same
    dictionary, which is the mapping itself. *)
Theorem C4_delimiter_independence
    (m : pydict) (l : list (str * str)) (ws : str) :
  l ≡ₚ map_to_list m ->
  map_Forall (fun k v => plain_tag k = true /\ plain v = true) m ->
  ws <> [] -> forallb is_space ws = true ->
  parse_fix_line (render [SOH] l) = m
  /\ parse_fix_line (render [PIPE] l) = m
  /\ parse_fix_line (render ws l) = m.
Proof.
  intros Hl Hm Hne Hws.
  assert (Forall (fun kv => plain_tag kv.1 = true /\ plain kv.2 = true) l)
    as Hall.
  { rewrite Hl. apply map_Forall_to_list in Hm.
    eapply Forall_impl; [exact Hm|]. by intros [k v]. }
  pose proof (assign_fields_map_to_list m l Hl) as Hassign.
  split_and!; rewrite parse_fix_line_render; try done.
  - by left.
  - right; by left.
  - right; by right.
Qed.

Lemma C4_delimiter_independence_witness :
  let m : pydict :=
    <[py "35" := py "D"]> (<[py "11" := py "A=1"]> (<[py "40" := py "2"]> ∅))
  in
  parse_fix_line (render [SOH] (map_to_list m)) = m
  /\ parse_fix_line (render [PIPE] (map_to_list m)) = m
  /\ parse_fix_line (render [32; 9] (map_to_list m)) = m.
Proof.
  intros m.
  apply (C4_delimiter_independence m (map_to_list m) [32; 9]).
  - reflexivity.
  - apply map_Forall_to_list. vm_compute. repeat constructor.
  - discriminate.
  - by vm_compute.
Defined.

(** C5, as stated, fails: when the later of two orders under one
    identifier carries no symbol, the row of a matching fill carries the
    symbol echoed by the fill, which is not the later order's (empty)
    symbol; it is not the earlier order's either. *)
Lemma C5_symbol_from_fill_counterexample :
  qualifying_order (parse_fix_line order_line_old) (py "A1")
  /\ qualifying_order (parse_fix_line order_line_new) (py "A1")
  /\ get_or_empty (parse_fix_line order_line_new) TAG_SYMBOL = []
  /\ exists row,
       fix_rows [order_line_old; order_line_new; fill_line_echo] = [row]
       /\ Symbol row = py "ECHO"
       /\ Symbol row
          <> get_or_empty (parse_fix_line order_line_new) TAG_SYMBOL.
Proof.
  split_and!; try by vm_compute.
  eexists. split_and!; by vm_compute.
Qed.

(** C5, amended: when two order lines qualify under one identifier and no
    qualifying order line for that identifier follows the later one, the
    store holds under that identifier the entry built from the later line
    alone, so every row matched to the identifier carries that identifier,
    the later order's timestamp and limit price, and the later order's
    symbol, side and quantity wherever these are non-empty; an empty one is
    replaced by the value the fill echoes. *)
Theorem C5_later_order_wins pre earlier mid later post c :
  qualifying_order (parse_fix_line earlier) c ->
  qualifying_order (parse_fix_line later) c ->
  Forall (fun l => ~ qualifying_order (parse_fix_line l) c) post ->
  let store :=
    (load_orders_and_fills (pre ++ earlier :: mid ++ later :: post)).1 in
  let o := parse_fix_line later in
  store !! c = Some (order_entry o c ORDTYPE_LIMIT)
  /\ forall ex row,
       resolve_clid ex = Some c -> build_row store ex = Some row ->
       OrderID row = c
       /\ OrderTransactTime row = get_or_empty o TAG_TRANSACTTIME
       /\ Symbol row
          = str_or (get_or_empty o TAG_SYMBOL) (get_or_empty ex TAG_SYMBOL)
       /\ Side row
          = str_or (get_or_empty o TAG_SIDE) (get_or_empty ex TAG_SIDE)
       /\ OrderQty row
          = str_or (get_or_empty o TAG_ORDERQTY)
                   (get_or_empty ex TAG_ORDERQTY)
       /\ LimitPrice row = get_or_empty o TAG_PRICE.
Proof.
  intros _ Hlater Hpost store o.
  assert (store !! c = Some (order_entry o c ORDTYPE_LIMIT)) as Hstore.
  { subst store o.
    replace (pre ++ earlier :: mid ++ later :: post)
      with ((pre ++ earlier :: mid) ++ later :: post)
      by (by rewrite <- app_assoc).
    by apply store_last_order. }
  split; [done|].
  intros ex row Hc (c' & order & Hc' & _ & Ho & _ & _ & ->)%build_row_Some.
  assert (c' = c) as -> by congruence.
  rewrite Hstore in Ho. injection Ho as <-.
  by rewrite compose_row_order_entry.
Qed.

Lemma C5_later_order_wins_witness :
  let store :=
    (load_orders_and_fills
       ([] ++ order_line_old :: [fill_line_echo] ++ order_line_new :: [])).1 in
  let o := parse_fix_line order_line_new in
  store !! py "A1" = Some (order_entry o (py "A1") ORDTYPE_LIMIT)
  /\ forall ex row,
       resolve_clid ex = Some (py "A1") -> build_row store ex = Some row ->
       OrderID row = py "A1"
       /\ OrderTransactTime row = get_or_empty o TAG_TRANSACTTIME
       /\ Symbol row
          = str_or (get_or_empty o TAG_SYMBOL) (get_or_empty ex TAG_SYMBOL)
       /\ Side row
          = str_or (get_or_empty o TAG_SIDE) (get_or_empty ex TAG_SIDE)
       /\ OrderQty row
          = str_or (get_or_empty o TAG_ORDERQTY)
                   (get_or_empty ex TAG_ORDERQTY)
       /\ LimitPrice row = get_or_empty o TAG_PRICE.
Proof.
  apply (C5_later_order_wins [] order_line_old [fill_line_echo]
           order_line_new [] (py "A1")).
  - by vm_compute.
  - by vm_compute.
  - constructor.
Defined.

(** C6: a line whose message is an execution report (tag 35 = 8) with
    tag 150 other than 2, or tag 39 other than 2, leaves the state of the
    loading pass unchanged, its message is never among the fills, and the
    output of the program is the output on the input without that line,
    whatever orders the rest of the input stores. *)
Theorem C6_non_fill_report_ignored line :
  parse_fix_line line !! TAG_MSGTYPE = Some MSG_EXEC_REPORT ->
  parse_fix_line line !! TAG_EXECTYPE <> Some EXECTYPE_FILL
  \/ parse_fix_line line !! TAG_ORDSTATUS <> Some ORDSTATUS_FILLED ->
  (forall st, load_line st line = st)
  /\ (forall lines, parse_fix_line line ∉ (load_orders_and_fills lines).2)
  /\ (forall pre post,
        load_orders_and_fills (pre ++ line :: post)
        = load_orders_and_fills (pre ++ post)
        /\ fix_rows (pre ++ line :: post) = fix_rows (pre ++ post)).
Proof.
  intros Ht Hno.
  assert (~ qualifying_fill (parse_fix_line line)) as Hnf.
  { intros (_ & He & Hs). by destruct Hno. }
  assert (forall c, ~ qualifying_order (parse_fix_line line) c) as Hnq.
  { intros c (Ht' & _). rewrite Ht in Ht'. vm_compute in Ht'.
    discriminate Ht'. }
  assert (forall st, load_line st line = st) as Hst.
  { intros [o f]. unfold load_line. by apply load_msg_ignore. }
  split_and!; [done| |].
  - intros lines. rewrite load_orders_and_fills_split. simpl.
    by intros [? _]%list_elem_of_filter.
  - intros pre post.
    assert (load_orders_and_fills (pre ++ line :: post)
            = load_orders_and_fills (pre ++ post)) as Heq.
    { unfold load_orders_and_fills. rewrite !fold_left_app.
      cbn [fold_left]. by rewrite Hst. }
    split; [done|]. unfold fix_rows. by rewrite Heq.
Qed.

Lemma C6_non_fill_report_ignored_witness :
  (parse_fix_line partial_fill_line ∉
     (load_orders_and_fills [order_line_A1; partial_fill_line]).2)
  /\ fix_rows ([order_line_A1] ++ partial_fill_line :: [])
     = fix_rows ([order_line_A1] ++ []).
Proof.
  assert (parse_fix_line partial_fill_line !! TAG_MSGTYPE
          = Some MSG_EXEC_REPORT) as Ht by (by vm_compute).
  assert (parse_fix_line partial_fill_line !! TAG_EXECTYPE
          <> Some EXECTYPE_FILL
          \/ parse_fix_line partial_fill_line !! TAG_ORDSTATUS
             <> Some ORDSTATUS_FILLED) as Hno by (left; by vm_compute).
  destruct (C6_non_fill_report_ignored partial_fill_line Ht Hno)
    as (_ & Hfills & Hrows).
  split; [apply Hfills|apply Hrows].
Defined.

(** C7: a line whose message is a new order (tag 35 = D) with tag 40
    other than 2, or without tag 40, leaves the state of the loading pass
    unchanged; every entry of the store built from any input has tag 40
    equal to 2; and a fill whose identifier has no entry in the store is
    dropped. *)
Theorem C7_only_limit_orders_stored :
  (forall line st,
     parse_fix_line line !! TAG_MSGTYPE = Some MSG_NEW_ORDER_SINGLE ->
     parse_fix_line line !! TAG_ORDTYPE <> Some ORDTYPE_LIMIT ->
     load_line st line = st)
  /\ (forall lines c order,
        (load_orders_and_fills lines).1 !! c = Some order ->
        order !! TAG_ORDTYPE = Some ORDTYPE_LIMIT)
  /\ (forall orders ex c fills,
        resolve_clid ex = Some c -> orders !! c = None ->
        build_row orders ex = None
        /\ build_rows orders (ex :: fills) = build_rows orders fills).
Proof.
  split_and!.
  - intros line [o f] Ht Hno. unfold load_line. apply load_msg_ignore.
    + by intros c (_ & _ & _ & Hl).
    + intros (Ht' & _). rewrite Ht in Ht'. vm_compute in Ht'.
      discriminate Ht'.
  - intros lines c order (line & _ & _ & ->)%store_entries.
    apply order_entry_ordtype.
  - intros orders ex c fills Hc Ho.
    assert (build_row orders ex = None) as Hnone.
    { destruct (build_row orders ex) as [row|] eqn:Hrow; [|done].
      apply build_row_Some in Hrow as (c' & order & Hc' & _ & Ho' & _).
      congruence. }
    split; [done|]. by apply build_rows_cons_None.
Qed.

Lemma C7_only_limit_orders_stored_witness :
  load_line (load_orders_and_fills [order_line_A1]) market_order_line
  = load_orders_and_fills [order_line_A1]
  /\ build_rows (load_orders_and_fills [market_order_line]).1
                [parse_fix_line fill_line_A1]
     = build_rows (load_orders_and_fills [market_order_line]).1 [].
Proof.
  destruct C7_only_limit_orders_stored as (Hignore & _ & Hdrop).
  split.
  - apply Hignore; by vm_compute.
  - apply (Hdrop _ _ (py "A1")); by vm_compute.
Defined.

(** C8, as stated, fails: a full fill that precedes a qualifying limit
    order with the matching identifier, and that repeats tag 40 with a
    value other than 2, yields no row. *)
Lemma C8_fill_before_order_counterexample :
  qualifying_fill (parse_fix_line fill_line_market)
  /\ resolve_clid (parse_fix_line fill_line_market) = Some (py "A1")
  /\ qualifying_order (parse_fix_line order_line_A1) (py "A1")
  /\ fix_rows [fill_line_market; order_line_A1] = [].
Proof. split_and!; by vm_compute. Qed.

(** C8, amended: when a qualifying fill line precedes a qualifying limit
    order line with the matching identifier, the fill is correlated with
    the last qualifying order line of the input that carries the
    identifier, and the row is emitted unless the fill carries tag 40 with
    a value other than 2. *)
Theorem C8_fill_before_order pre fline mid oline post c :
  qualifying_fill (parse_fix_line fline) ->
  resolve_clid (parse_fix_line fline) = Some c ->
  qualifying_order (parse_fix_line oline) c ->
  Forall (fun l => ~ qualifying_order (parse_fix_line l) c) post ->
  parse_fix_line fline !! TAG_ORDTYPE = None
  \/ parse_fix_line fline !! TAG_ORDTYPE = Some ORDTYPE_LIMIT ->
  let lines := pre ++ fline :: mid ++ oline :: post in
  let row := compose_row
               (order_entry (parse_fix_line oline) c ORDTYPE_LIMIT)
               (parse_fix_line fline) in
  build_row (load_orders_and_fills lines).1 (parse_fix_line fline) = Some row
  /\ row ∈ fix_rows lines.
Proof.
  intros Hqf Hc Hqo Hpost Ht lines row.
  assert (build_row (load_orders_and_fills lines).1 (parse_fix_line fline)
          = Some row) as Hrow.
  { apply build_row_Some.
    exists c, (order_entry (parse_fix_line oline) c ORDTYPE_LIMIT).
    split_and!; [done|by destruct Hqo as (_ & _ & ? & _)| |
                 apply order_entry_nonempty|done|done].
    subst lines.
    replace (pre ++ fline :: mid ++ oline :: post)
      with ((pre ++ fline :: mid) ++ oline :: post)
      by (by rewrite <- app_assoc).
    by apply store_last_order. }
  split; [done|]. apply elem_of_fix_rows. exists fline.
  split_and!; [|done..]. subst lines. apply elem_of_app. right. left.
Qed.

Lemma C8_fill_before_order_witness :
  let lines := [] ++ fill_line_A1 :: [] ++ order_line_A1 :: [] in
  let row := compose_row
               (order_entry (parse_fix_line order_line_A1) (py "A1")
                            ORDTYPE_LIMIT)
               (parse_fix_line fill_line_A1) in
  build_row (load_orders_and_fills lines).1 (parse_fix_line fill_line_A1)
  = Some row
  /\ row ∈ fix_rows lines.
Proof.
  apply (C8_fill_before_order [] fill_line_A1 [] order_line_A1 [] (py "A1")).
  - by vm_compute.
  - by vm_compute.
  - by vm_compute.
  - constructor.
  - left. by vm_compute.
Defined.

(** C9: for a fill whose identifier has an entry in the store built from
    the input, the fill is dropped when it carries tag 40 with a value
    other than 2, and a row is made from the entry and the fill when it
    carries no tag 40 at all. *)
Theorem C9_fill_ordtype_check lines ex c order :
  (load_orders_and_fills lines).1 !! c = Some order ->
  resolve_clid ex = Some c ->
  (forall v, ex !! TAG_ORDTYPE = Some v -> v <> ORDTYPE_LIMIT ->
     build_row (load_orders_and_fills lines).1 ex = None)
  /\ (ex !! TAG_ORDTYPE = None ->
      build_row (load_orders_and_fills lines).1 ex
      = Some (compose_row order ex)).
Proof.
  intros Ho Hc. split.
  - intros v Hv Hne.
    destruct (build_row _ ex) as [row|] eqn:Hrow; [|done].
    apply build_row_Some in Hrow as (_ & _ & _ & _ & _ & _ & [Ht|Ht] & _);
      congruence.
  - intros Ht. apply build_row_Some. exists c, order.
    pose proof Ho as (line & _ & (_ & _ & Hne & _) & ->)%store_entries.
    split_and!; [done..|apply order_entry_nonempty|by left|done].
Qed.

Lemma C9_fill_ordtype_check_witness :
  build_row (load_orders_and_fills [order_line_A1]).1
            (parse_fix_line fill_line_market) = None
  /\ build_row (load_orders_and_fills [order_line_A1]).1
               (parse_fix_line fill_line_A1)
     = Some (compose_row
               (order_entry (parse_fix_line order_line_A1) (py "A1")
                            ORDTYPE_LIMIT)
               (parse_fix_line fill_line_A1)).
Proof.
  assert ((load_orders_and_fills [order_line_A1]).1 !! py "A1"
          = Some (order_entry (parse_fix_line order_line_A1) (py "A1")
                              ORDTYPE_LIMIT)) as Ho by (by vm_compute).
  split.
  - apply (proj1 (C9_fill_ordtype_check [order_line_A1]
                    (parse_fix_line fill_line_market) (py "A1") _ Ho
                    ltac:(by vm_compute)) (py "1")); by vm_compute.
  - apply (proj2 (C9_fill_ordtype_check [order_line_A1]
                    (parse_fix_line fill_line_A1) (py "A1") _ Ho
                    ltac:(by vm_compute))). by vm_compute.
Defined.

(** C10: a fill whose tag 41 is present with the empty string as value is
    treated as the same fill without tag 41: the identifier is whatever
    tag 11 gives, and the outcome of the correlation step is the same
    against every store. *)
Theorem C10_empty_orig_as_absent ex :
  ex !! TAG_ORIGCLORDID = Some [] ->
  resolve_clid ex = ex !! TAG_CLORDID
  /\ resolve_clid ex = resolve_clid (delete TAG_ORIGCLORDID ex)
  /\ forall orders,
       build_row orders ex = build_row orders (delete TAG_ORIGCLORDID ex).
Proof.
  intros H41.
  assert (resolve_clid ex = ex !! TAG_CLORDID) as Hr.
  { unfold resolve_clid, opt_or. by rewrite H41. }
  assert (resolve_clid (delete TAG_ORIGCLORDID ex) = ex !! TAG_CLORDID)
    as Hr'.
  { unfold resolve_clid, opt_or.
    by rewrite lookup_delete_eq, lookup_delete_ne by tag_ne. }
  split_and!; [done|congruence|].
  intros orders. unfold build_row. rewrite Hr, Hr'.
  unfold compose_row, get_or_empty.
  by rewrite !lookup_delete_ne by tag_ne.
Qed.

Lemma C10_empty_orig_as_absent_witness :
  resolve_clid (parse_fix_line fill_line_empty_orig)
  = parse_fix_line fill_line_empty_orig !! TAG_CLORDID
  /\ resolve_clid (parse_fix_line fill_line_empty_orig)
     = resolve_clid (delete TAG_ORIGCLORDID
                       (parse_fix_line fill_line_empty_orig))
  /\ forall orders,
       build_row orders (parse_fix_line fill_line_empty_orig)
       = build_row orders (delete TAG_ORIGCLORDID
                             (parse_fix_line fill_line_empty_orig)).
Proof.
  apply (C10_empty_orig_as_absent (parse_fix_line fill_line_empty_orig)).
  by vm_compute.
Defined.

End Claims.

(** * Further properties of the tokenizer *)

Section Pieces.
Variable P : char -> Prop.

Lemma lstrip_Forall s : Forall P s -> Forall P (lstrip s).
Proof.
  induction 1 as [|x s Hx Hs IH]; simpl; [constructor|].
  destruct (is_space x); [done|by constructor].
Qed.

Lemma strip_Forall s : Forall P s -> Forall P (strip s).
Proof.
  intros Hs. unfold strip, rstrip.
  apply Forall_rev, lstrip_Forall, Forall_rev. by apply lstrip_Forall.
Qed.

Lemma split_on_Forall c s :
  Forall P s -> Forall (Forall P) (split_on c s).
Proof.
  induction 1 as [|x s Hx Hs IH]; simpl; [by repeat constructor|].
  destruct (x =? c); [by constructor|].
  destruct (split_on c s) as [|w r]; [by repeat constructor|].
  apply Forall_cons in IH as [Hw Hr]. by repeat constructor.
Qed.

Lemma re_split_ws_from_Forall b s :
  Forall P s -> Forall (Forall P) (re_split_ws_from b s).
Proof.
  intros Hs. revert b.
  induction Hs as [|x s Hx Hs IH]; intros b; simpl;
    [by repeat constructor|].
  destruct (is_space x).
  - destruct b; [apply IH|constructor; [constructor|apply IH]].
  - specialize (IH false).
    destruct (re_split_ws_from false s) as [|w r]; [by repeat constructor|].
    apply Forall_cons in IH as [Hw Hr]. by repeat constructor.
Qed.

Lemma split_fields_Forall s :
  Forall P s -> Forall (Forall P) (split_fields s).
Proof.
  intros Hs. unfold split_fields, re_split_ws.
  repeat case_match;
    auto using split_on_Forall, re_split_ws_from_Forall.
Qed.
End Pieces.

Section TokenizerEdges.
Implicit Types (s t sep line : str) (ss : list str) (x c : char).
Implicit Types (m msg : pydict).

Lemma split_on_no_sep c s :
  Forall (Forall (fun x => x <> c)) (split_on c s).
Proof.
  induction s as [|x s IH]; simpl; [by repeat constructor|].
  destruct (x =? c) eqn:Hx; [by repeat constructor|].
  apply N.eqb_neq in Hx.
  destruct (split_on c s) as [|w r]; [by repeat constructor|].
  apply Forall_cons in IH as [Hw Hr]. by repeat constructor.
Qed.

Lemma re_split_ws_from_no_space b s :
  Forall (Forall (fun x => is_space x = false)) (re_split_ws_from b s).
Proof.
  revert b. induction s as [|x s IH]; intros b; simpl;
    [by repeat constructor|].
  destruct (is_space x) eqn:Hx.
  - destruct b; [apply IH|constructor; [constructor|apply IH]].
  - specialize (IH false).
    destruct (re_split_ws_from false s) as [|w r]; [by repeat constructor|].
    apply Forall_cons in IH as [Hw Hr]. by repeat constructor.
Qed.

Lemma split_eq1_Some s k v :
  split_eq1 s = Some (k, v) ->
  s = k ++ EQUALS :: v /\ Forall (fun x => x <> EQUALS) k.
Proof.
  revert k. induction s as [|x s IH]; intros k; cbn [split_eq1]; [done|].
  destruct (x =? EQUALS) eqn:Hx.
  - apply N.eqb_eq in Hx as ->. intros [= <- <-]. by split.
  - apply N.eqb_neq in Hx.
    destruct (split_eq1 s) as [[k' v']|]; [|done].
    intros [= <- <-]. destruct (IH k' eq_refl) as [-> Hk].
    split; [done|by constructor].
Qed.

Lemma split_eq1_None s :
  Forall (fun x => x <> EQUALS) s -> split_eq1 s = None.
Proof.
  induction 1 as [|x s Hx _ IH]; cbn [split_eq1]; [done|].
  apply N.eqb_neq in Hx. by rewrite Hx, IH.
Qed.

Lemma lstrip_all_space s : forallb is_space s = true -> lstrip s = [].
Proof.
  induction s as [|x s IH]; simpl; [done|].
  intros [-> Hs]%andb_prop. by apply IH.
Qed.

Lemma lstrip_app s t :
  lstrip (s ++ t) = match lstrip s with
                    | [] => lstrip t
                    | _ :: _ => lstrip s ++ t
                    end.
Proof.
  induction s as [|x s IH]; simpl; [by destruct (lstrip t)|].
  by destruct (is_space x).
Qed.

Lemma rstrip_app_space s t :
  forallb is_space t = true -> rstrip (s ++ t) = rstrip s.
Proof.
  intros Ht. unfold rstrip. rewrite rev_app_distr, lstrip_app.
  rewrite lstrip_all_space; [done|].
  rewrite forallb_forall in *. intros x Hx. apply Ht. by apply in_rev.
Qed.

Lemma strip_surrounded s t u :
  forallb is_space s = true -> forallb is_space u = true ->
  strip (s ++ t ++ u) = strip t.
Proof.
  intros Hs Hu. unfold strip.
  rewrite lstrip_app, lstrip_all_space by done.
  rewrite lstrip_app. destruct (lstrip t) as [|x t'] eqn:Ht.
  - by rewrite lstrip_all_space.
  - by apply rstrip_app_space.
Qed.

Lemma parse_field_no_equals m s :
  Forall (fun x => x <> EQUALS) s -> parse_field m s = m.
Proof.
  intros Hs. unfold parse_field. destruct s; [done|].
  by rewrite split_eq1_None.
Qed.

Lemma fold_parse_field_no_equals m ss :
  Forall (Forall (fun x => x <> EQUALS)) ss ->
  fold_left parse_field ss m = m.
Proof.
  intros Hss. revert m. induction Hss as [|s ss Hs _ IH]; intros m; [done|].
  cbn [fold_left]. by rewrite parse_field_no_equals, IH.
Qed.

(** X1: a line made of white space only, the empty line included,
    tokenizes to the empty dictionary. *)
Theorem X1_blank_line_empty line :
  forallb is_space line = true -> parse_fix_line line = ∅.
Proof.
  intros Hl. unfold parse_fix_line, strip.
  by rewrite lstrip_all_space.
Qed.

Lemma X1_blank_line_empty_witness :
  parse_fix_line [32; 9; 13; 10] = ∅.
Proof. apply X1_blank_line_empty. by vm_compute. Defined.

(** X2: white space around a line does not change its tokenization; in
    particular the line terminator kept by [readlines] is ignored. *)
Theorem X2_surrounding_space_ignored lead line trail :
  forallb is_space lead = true -> forallb is_space trail = true ->
  parse_fix_line (lead ++ line ++ trail) = parse_fix_line line.
Proof.
  intros Hl Ht. unfold parse_fix_line. by rewrite strip_surrounded.
Qed.

Lemma X2_surrounding_space_ignored_witness :
  parse_fix_line ([32] ++ order_line_A1 ++ [13; 10])
  = parse_fix_line order_line_A1.
Proof. apply X2_surrounding_space_ignored; by vm_compute. Defined.

(** X3: a line that holds no [=] at all tokenizes to the empty dictionary,
    whatever separators it holds. *)
Theorem X3_no_equals_empty line :
  contains EQUALS line = false -> parse_fix_line line = ∅.
Proof.
  intros Hl%contains_false. unfold parse_fix_line.
  apply (strip_Forall _ _) in Hl.
  destruct (strip line) as [|x s] eqn:Hs; [done|].
  apply fold_parse_field_no_equals. by apply split_fields_Forall.
Qed.

Lemma X3_no_equals_empty_witness :
  parse_fix_line (py "8 FIX.4.2|heartbeat") = ∅.
Proof. apply X3_no_equals_empty. by vm_compute. Defined.
End TokenizerEdges.

Section TokenizerInvariants.
Implicit Types (s t sep line k v : str) (ss : list str) (x c : char).
Implicit Types (m msg : pydict).

Lemma fold_parse_field_Forall (P : char -> Prop) ss m :
  Forall (Forall P) ss ->
  map_Forall (fun k v => Forall P k /\ Forall P v) m ->
  map_Forall (fun k v => Forall P k /\ Forall P v)
             (fold_left parse_field ss m).
Proof.
  intros Hss. revert m. induction Hss as [|s ss Hs _ IH]; intros m Hm; [done|].
  cbn [fold_left]. apply IH. unfold parse_field.
  destruct s as [|x s]; [done|].
  destruct (split_eq1 (x :: s)) as [[k v]|] eqn:Hkv; [|done].
  apply split_eq1_Some in Hkv as [Heq _]. rewrite Heq in Hs.
  apply Forall_app in Hs as [Hk [_ Hv]%Forall_cons].
  by apply map_Forall_insert_2.
Qed.

Lemma fold_parse_field_keys ss m :
  map_Forall (fun k _ => Forall (fun x => x <> EQUALS) k) m ->
  map_Forall (fun k _ => Forall (fun x => x <> EQUALS) k)
             (fold_left parse_field ss m).
Proof.
  revert m. induction ss as [|s ss IH]; intros m Hm; [done|].
  cbn [fold_left]. apply IH. unfold parse_field.
  destruct s as [|x s]; [done|].
  destruct (split_eq1 (x :: s)) as [[k v]|] eqn:Hkv; [|done].
  apply split_eq1_Some in Hkv as [_ Hk].
  by apply map_Forall_insert_2.
Qed.

(** What separates the pieces is in no piece. *)
Lemma split_fields_pieces line :
  Forall (Forall (fun x => x <> SOH)) (split_fields line)
  /\ (contains SOH line = false ->
      Forall (Forall (fun x => x <> PIPE)) (split_fields line))
  /\ (contains SOH line = false -> contains PIPE line = false ->
      Forall (Forall (fun x => is_space x = false)) (split_fields line)).
Proof.
  unfold split_fields. split_and!.
  - destruct (contains SOH line) eqn:Hsoh; [apply split_on_no_sep|].
    pose proof Hsoh as Hp%contains_false.
    apply (split_fields_Forall (fun x => x <> SOH)) in Hp.
    unfold split_fields in Hp. by rewrite Hsoh in Hp.
  - intros ->. destruct (contains PIPE line) eqn:Hpipe;
      [apply split_on_no_sep|].
    apply re_split_ws_from_Forall. by apply contains_false.
  - intros -> ->. apply re_split_ws_from_no_space.
Qed.

Lemma contains_strip c line :
  contains c line = false -> contains c (strip line) = false.
Proof.
  rewrite !contains_false. apply strip_Forall.
Qed.

(** X4: in every tokenized message no tag holds [=] and no tag or value
    holds SOH; when the line holds no SOH, no tag or value holds a pipe;
    when the line holds neither, no tag or value holds white space. *)
Theorem X4_tags_values_separator_free line :
  map_Forall (fun k v => contains EQUALS k = false
                         /\ contains SOH k = false
                         /\ contains SOH v = false)
             (parse_fix_line line)
  /\ (contains SOH line = false ->
      map_Forall (fun k v => contains PIPE k = false
                             /\ contains PIPE v = false)
                 (parse_fix_line line))
  /\ (contains SOH line = false -> contains PIPE line = false ->
      map_Forall (fun k v => existsb is_space k = false
                             /\ existsb is_space v = false)
                 (parse_fix_line line)).
Proof.
  unfold parse_fix_line.
  destruct (split_fields_pieces (strip line)) as (Hsoh & Hpipe & Hws).
  split_and!.
  - destruct (strip line) as [|x s]; [apply map_Forall_empty|].
    pose proof (fold_parse_field_Forall _ _ ∅ Hsoh) as H1.
    pose proof (fold_parse_field_keys (split_fields (x :: s)) ∅) as H2.
    intros k v Hkv.
    destruct (H1 (map_Forall_empty _) k v Hkv) as [? ?].
    specialize (H2 (map_Forall_empty _) k v Hkv).
    by rewrite !contains_false.
  - intros Hs%contains_strip. specialize (Hpipe Hs).
    destruct (strip line) as [|x s]; [apply map_Forall_empty|].
    pose proof (fold_parse_field_Forall _ _ ∅ Hpipe) as H1.
    intros k v Hkv.
    destruct (H1 (map_Forall_empty _) k v Hkv) as [? ?].
    by rewrite !contains_false.
  - intros Hs%contains_strip Hp%contains_strip. specialize (Hws Hs Hp).
    destruct (strip line) as [|x s]; [apply map_Forall_empty|].
    pose proof (fold_parse_field_Forall _ _ ∅ Hws) as H1.
    intros k v Hkv.
    destruct (H1 (map_Forall_empty _) k v Hkv) as [Hk Hv].
    split; apply not_true_is_false; intros (y & Hy & Hsp)%existsb_exists.
    + rewrite Forall_forall in Hk.
      apply list_elem_of_In, Hk in Hy. congruence.
    + rewrite Forall_forall in Hv.
      apply list_elem_of_In, Hv in Hy. congruence.
Qed.

Lemma contains_field_text c k v :
  c <> EQUALS -> contains c k = false -> contains c v = false ->
  contains c (field_text (k, v)) = false.
Proof.
  intros Hc Hk Hv. unfold field_text. cbn [fst snd].
  rewrite contains_app, Hk. unfold contains in *. cbn [existsb].
  rewrite Hv. apply N.eqb_neq in Hc. by rewrite Hc.
Qed.

(** A line whose fields are joined by the character [c], SOH or pipe. *)
Lemma parse_fix_line_char_delimited c (l : list (str * str)) :
  c = SOH
  \/ (c = PIPE
      /\ Forall (fun kv => contains SOH kv.1 = false
                           /\ contains SOH kv.2 = false) l) ->
  (2 <= List.length l)%nat ->
  Forall (fun kv => contains c kv.1 = false /\ contains c kv.2 = false
                    /\ contains EQUALS kv.1 = false) l ->
  strip (render [c] l) = render [c] l ->
  parse_fix_line (render [c] l) = assign_fields l.
Proof.
  intros Hc Hlen Hl Hstrip. unfold parse_fix_line. rewrite Hstrip.
  destruct l as [|kv1 [|kv2 l]]; [simpl in Hlen; lia..|].
  assert (c <> EQUALS) as Hne.
  { destruct Hc as [->|[-> _]]; by vm_compute. }
  assert (Forall (Forall (fun x => x <> c))
                 (List.map field_text (kv1 :: kv2 :: l))) as Hnc.
  { apply Forall_map. eapply Forall_impl; [exact Hl|].
    intros [k v] (? & ? & _). by apply contains_false, contains_field_text. }
  assert (split_fields (render [c] (kv1 :: kv2 :: l))
          = List.map field_text (kv1 :: kv2 :: l)) as Hsplit.
  { unfold split_fields, render. cbn [List.map] in *.
    destruct Hc as [->|[-> Hsoh]].
    - rewrite contains_join_sep. by apply split_on_join.
    - rewrite contains_join; [|done|].
      + rewrite contains_join_sep. by apply split_on_join.
      + apply (Forall_map field_text (fun s => contains SOH s = false)
                          (kv1 :: kv2 :: l)).
        eapply Forall_impl; [exact Hsoh|].
        intros [k v] [? ?]. by apply contains_field_text. }
  rewrite Hsplit.
  destruct (render [c] (kv1 :: kv2 :: l)) as [|x s] eqn:Hr.
  { unfold render in Hr. cbn [List.map] in Hr.
    destruct (join_first [c] (field_text kv1)
                (field_text kv2 :: List.map field_text l)) as (t & Ht).
    rewrite Hr in Ht. symmetry in Ht. apply app_eq_nil in Ht as [Ht _].
    unfold field_text in Ht. by apply app_eq_nil in Ht as [_ ?]. }
  apply (fold_parse_field_text ∅ (kv1 :: kv2 :: l)).
  eapply Forall_impl; [exact Hl|]. intros [k v] (_ & _ & Hk).
  by apply contains_false.
Qed.

(** X5: a line of at least two fields joined by SOH, without leading or
    trailing white space, tokenizes to its fields whatever pipes, white
    space and further [=] the values hold: SOH is tried first. *)
Theorem X5_soh_first (l : list (str * str)) :
  (2 <= List.length l)%nat ->
  Forall (fun kv => contains SOH kv.1 = false /\ contains SOH kv.2 = false
                    /\ contains EQUALS kv.1 = false) l ->
  strip (render [SOH] l) = render [SOH] l ->
  parse_fix_line (render [SOH] l) = assign_fields l.
Proof. intros. apply parse_fix_line_char_delimited; auto. Qed.

Lemma X5_soh_first_witness :
  parse_fix_line (render [SOH] [(py "35", py "D"); (py "58", py "a|b c=d")])
  = assign_fields [(py "35", py "D"); (py "58", py "a|b c=d")].
Proof.
  apply X5_soh_first.
  - simpl. lia.
  - repeat constructor.
  - by vm_compute.
Defined.

(** X6: a line without SOH, of at least two fields joined by a pipe,
    without leading or trailing white space, tokenizes to its fields
    whatever white space the tags and values hold: the pipe is tried
    before white space. *)
Theorem X6_pipe_before_space (l : list (str * str)) :
  (2 <= List.length l)%nat ->
  Forall (fun kv => contains SOH kv.1 = false
                    /\ contains SOH kv.2 = false) l ->
  Forall (fun kv => contains PIPE kv.1 = false /\ contains PIPE kv.2 = false
                    /\ contains EQUALS kv.1 = false) l ->
  strip (render [PIPE] l) = render [PIPE] l ->
  parse_fix_line (render [PIPE] l) = assign_fields l.
Proof. intros. apply parse_fix_line_char_delimited; auto. Qed.

Lemma X6_pipe_before_space_witness :
  parse_fix_line (render [PIPE] [(py "35", py "D"); (py "58", py "b c=d")])
  = assign_fields [(py "35", py "D"); (py "58", py "b c=d")].
Proof.
  apply X6_pipe_before_space.
  - simpl. lia.
  - repeat constructor.
  - repeat constructor.
  - by vm_compute.
Defined.

(** X7: adding a field at the end of a rendered line assigns its tag
    last: the message is the one of the shorter line with the tag set to
    the new value, so the last of several fields with one tag wins. *)
Theorem X7_last_field_wins sep (l : list (str * str)) k v :
  is_separator sep ->
  Forall (fun kv => plain_tag kv.1 = true /\ plain kv.2 = true) l ->
  plain_tag k = true -> plain v = true ->
  parse_fix_line (render sep (l ++ [(k, v)]))
  = <[k := v]> (parse_fix_line (render sep l)).
Proof.
  intros Hsep Hl Hk Hv.
  rewrite !parse_fix_line_render; try done.
  - unfold assign_fields. by rewrite fold_left_app.
  - apply Forall_app. split; [done|]. by repeat constructor.
Qed.

Lemma X7_last_field_wins_witness :
  parse_fix_line
    (render [PIPE] ([(py "35", py "D"); (py "11", py "A1")]
                    ++ [(py "11", py "B2")]))
  = <[py "11" := py "B2"]>
      (parse_fix_line (render [PIPE] [(py "35", py "D"); (py "11", py "A1")])).
Proof.
  apply X7_last_field_wins.
  - right; by left.
  - repeat constructor.
  - by vm_compute.
  - by vm_compute.
Defined.
End TokenizerInvariants.

(** * Further properties of the loading pass *)

Section LoadMore.
Implicit Types (o : order_store) (f : list pydict) (msg order : pydict).
Implicit Types (line c : str) (lines pre post : list str).

Lemma store_step_is_Some o line c :
  is_Some (o !! c) -> is_Some (store_step o line !! c).
Proof.
  intros Hc.
  destruct (decide (qualifying_order (parse_fix_line line) c)) as [Hq|Hq].
  - rewrite (store_step_order _ _ _ Hq), lookup_insert_eq. by eexists.
  - by rewrite store_step_lookup_other.
Qed.

Lemma fold_store_step_is_Some lines o c :
  is_Some (o !! c) -> is_Some (fold_left store_step lines o !! c).
Proof.
  revert o. induction lines as [|line lines IH]; intros o Hc; [done|].
  cbn [fold_left]. by apply IH, store_step_is_Some.
Qed.

Lemma fold_store_step_written lines o c line :
  line ∈ lines -> qualifying_order (parse_fix_line line) c ->
  is_Some (fold_left store_step lines o !! c).
Proof.
  intros Hin Hq. revert o.
  induction lines as [|l lines IH]; intros o; [by apply elem_of_nil in Hin|].
  cbn [fold_left]. apply elem_of_cons in Hin as [<-|Hin]; [|by apply IH].
  apply fold_store_step_is_Some.
  rewrite (store_step_order _ _ _ Hq), lookup_insert_eq. by eexists.
Qed.

Lemma order_entry_dom msg c t :
  dom (order_entry msg c t) = list_to_set ORDER_TAGS.
Proof.
  unfold order_entry, ORDER_TAGS. rewrite !dom_insert_L, dom_empty_L.
  cbn [list_to_set foldr]. set_solver.
Qed.

Lemma store_step_union o line :
  store_step o line = store_step ∅ line ∪ o.
Proof.
  unfold store_step, load_line.
  destruct (load_msg_cases o [] (parse_fix_line line))
    as [(c & Hc & ->)|[(Hf & Hno & ->)|(Hno & Hf & ->)]]; cbn [fst].
  - rewrite (load_msg_order ∅ [] _ c Hc). cbn [fst].
    by rewrite insert_empty, <- insert_union_singleton_l.
  - rewrite (load_msg_fill ∅ [] _ Hf). cbn [fst].
    by rewrite (left_id_L ∅ (∪)).
  - rewrite (load_msg_ignore ∅ [] _ Hno Hf). cbn [fst].
    by rewrite (left_id_L ∅ (∪)).
Qed.

Lemma fold_store_step_union lines o :
  fold_left store_step lines o = fold_left store_step lines ∅ ∪ o.
Proof.
  revert o. induction lines as [|line lines IH]; intros o.
  - cbn [fold_left]. by rewrite (left_id_L ∅ (∪)).
  - cbn [fold_left]. rewrite IH, (IH (store_step ∅ line)).
    rewrite (store_step_union o line). by rewrite (assoc_L (∪)).
Qed.

Lemma skipped_line_removable line :
  (forall st, load_line st line = st) ->
  forall pre post,
    load_orders_and_fills (pre ++ line :: post)
    = load_orders_and_fills (pre ++ post)
    /\ fix_rows (pre ++ line :: post) = fix_rows (pre ++ post).
Proof.
  intros Hst pre post.
  assert (load_orders_and_fills (pre ++ line :: post)
          = load_orders_and_fills (pre ++ post)) as Heq.
  { unfold load_orders_and_fills. rewrite !fold_left_app.
    cbn [fold_left]. by rewrite Hst. }
  split; [done|]. unfold fix_rows. by rewrite Heq.
Qed.

Lemma not_relevant_skipped line :
  ~ relevant line -> forall st, load_line st line = st.
Proof.
  intros Hr [o f]. unfold load_line. apply load_msg_ignore.
  - intros c Hc. apply Hr. right. unfold get_or_empty.
    pose proof Hc as (_ & -> & _). done.
  - intros Hf. apply Hr. by left.
Qed.

(** X8: the fills returned by the loading pass are the messages of the
    lines that pass the execution-report tests, one per such line, in
    input order. *)
Theorem X8_fills_in_input_order lines :
  (load_orders_and_fills lines).2
  = filter qualifying_fill (parse_fix_line <$> lines).
Proof. by rewrite load_orders_and_fills_split. Qed.

(** X9: the store has an entry under [c] exactly when some line of the
    input is a qualifying order carrying [c]; every key of the store is a
    non-empty string, and every entry has exactly the seven keys 11, 60,
    55, 54, 38, 44 and 40, with tag 11 equal to the key it is stored
    under. *)
Theorem X9_store_shape lines c :
  (is_Some ((load_orders_and_fills lines).1 !! c) <->
   exists line, line ∈ lines /\ qualifying_order (parse_fix_line line) c)
  /\ forall order,
       (load_orders_and_fills lines).1 !! c = Some order ->
       c <> [] /\ order !! TAG_CLORDID = Some c
       /\ dom order = list_to_set ORDER_TAGS.
Proof.
  split.
  - split.
    + intros [order (line & ? & ? & _)%store_entries]. eauto.
    + intros (line & Hin & Hq). rewrite load_orders_and_fills_split.
      cbn [fst]. by eapply fold_store_step_written.
  - intros order (line & _ & (_ & _ & Hne & _) & ->)%store_entries.
    split_and!; [done|apply order_entry_clordid|apply order_entry_dom].
Qed.

(** X10: loading a concatenation: the fills are the fills of the first
    part followed by those of the second, and the store is the store of
    the second part completed, for the identifiers it lacks, by the store
    of the first. *)
Theorem X10_load_app (l1 l2 : list str) :
  (load_orders_and_fills (l1 ++ l2)).1
  = (load_orders_and_fills l2).1 ∪ (load_orders_and_fills l1).1
  /\ (load_orders_and_fills (l1 ++ l2)).2
     = (load_orders_and_fills l1).2 ++ (load_orders_and_fills l2).2.
Proof.
  rewrite !load_orders_and_fills_split. cbn [fst snd]. split.
  - rewrite fold_left_app. apply fold_store_step_union.
  - by rewrite fmap_app, filter_app.
Qed.

(** X11: the lines that are neither a qualifying order nor a qualifying
    fill can all be removed from the input without changing what the
    loading pass returns, nor the rows. *)
Theorem X11_irrelevant_lines_removable lines :
  load_orders_and_fills (filter relevant lines) = load_orders_and_fills lines
  /\ fix_rows (filter relevant lines) = fix_rows lines.
Proof.
  assert (forall st, fold_left load_line (filter relevant lines) st
                     = fold_left load_line lines st) as Hfold.
  { induction lines as [|line lines IH]; intros st; [done|].
    destruct (decide (relevant line)) as [Hr|Hr].
    - rewrite filter_cons_True by done. cbn [fold_left]. apply IH.
    - rewrite filter_cons_False by done. cbn [fold_left].
      by rewrite not_relevant_skipped. }
  assert (load_orders_and_fills (filter relevant lines)
          = load_orders_and_fills lines) as Heq by apply Hfold.
  split; [done|]. unfold fix_rows. by rewrite Heq.
Qed.

(** X12: a line whose message has no tag 35, or a tag 35 that is neither
    D nor 8, is skipped: the state of the loading pass is unchanged and
    the line can be removed from any input without changing the result.
    A line that tokenizes to the empty dictionary is one of them. *)
Theorem X12_other_message_types_skipped line :
  parse_fix_line line !! TAG_MSGTYPE <> Some MSG_NEW_ORDER_SINGLE ->
  parse_fix_line line !! TAG_MSGTYPE <> Some MSG_EXEC_REPORT ->
  (forall st, load_line st line = st)
  /\ forall pre post,
       load_orders_and_fills (pre ++ line :: post)
       = load_orders_and_fills (pre ++ post)
       /\ fix_rows (pre ++ line :: post) = fix_rows (pre ++ post).
Proof.
  intros Hd He.
  assert (forall st, load_line st line = st) as Hst.
  { intros [o f]. unfold load_line. apply load_msg_ignore.
    - by intros c (? & _).
    - by intros (? & _). }
  split; [done|]. by apply skipped_line_removable.
Qed.

Lemma X12_other_message_types_skipped_witness :
  load_line (load_orders_and_fills [order_line_A1]) (py "35=0|49=BRKR|56=INVMGR")
  = load_orders_and_fills [order_line_A1]
  /\ fix_rows ([order_line_A1] ++ [] :: [fill_line_A1])
     = fix_rows ([order_line_A1] ++ [fill_line_A1]).
Proof.
  split.
  - apply (proj1 (X12_other_message_types_skipped
                    (py "35=0|49=BRKR|56=INVMGR")
                    ltac:(by vm_compute) ltac:(by vm_compute))).
  - apply (proj2 (X12_other_message_types_skipped []
                    ltac:(by vm_compute) ltac:(by vm_compute))).
Defined.

(** X13: a new-order line without tag 11, or with an empty tag 11, is
    skipped even when it is a limit order: the state of the loading pass
    is unchanged and no entry is stored under the empty string. *)
Theorem X13_order_without_id_skipped line :
  parse_fix_line line !! TAG_MSGTYPE = Some MSG_NEW_ORDER_SINGLE ->
  parse_fix_line line !! TAG_CLORDID = None
  \/ parse_fix_line line !! TAG_CLORDID = Some [] ->
  (forall st, load_line st line = st)
  /\ forall pre post,
       load_orders_and_fills (pre ++ line :: post)
       = load_orders_and_fills (pre ++ post)
       /\ fix_rows (pre ++ line :: post) = fix_rows (pre ++ post).
Proof.
  intros Ht Hc.
  assert (forall st, load_line st line = st) as Hst.
  { intros [o f]. unfold load_line. apply load_msg_ignore.
    - intros c (_ & Hc' & Hne & _). destruct Hc as [Hc|Hc]; congruence.
    - intros (Ht' & _). rewrite Ht in Ht'. vm_compute in Ht'.
      discriminate Ht'. }
  split; [done|]. by apply skipped_line_removable.
Qed.

Lemma X13_order_without_id_skipped_witness :
  load_line (∅, []) (py "35=D|11=|40=2|55=XYZ") = (∅, [])
  /\ fix_rows ([] ++ py "35=D|40=2|55=XYZ" :: [fill_line_A1])
     = fix_rows ([] ++ [fill_line_A1]).
Proof.
  split.
  - apply (proj1 (X13_order_without_id_skipped (py "35=D|11=|40=2|55=XYZ")
                    ltac:(by vm_compute) ltac:(right; by vm_compute))).
  - apply (proj2 (X13_order_without_id_skipped (py "35=D|40=2|55=XYZ")
                    ltac:(by vm_compute) ltac:(left; by vm_compute))).
Defined.
End LoadMore.

(** * Further properties of the correlation pass and of the program *)

Section CorrelateMore.
Implicit Types (orders : order_store) (ex order msg : pydict).
Implicit Types (fills : list pydict).
Implicit Types (c line : str) (row : list str) (lines pre post : list str).

Lemma build_rows_app orders fills fills' :
  build_rows orders (fills ++ fills')
  = build_rows orders fills ++ build_rows orders fills'.
Proof.
  induction fills as [|ex fills IH]; [done|].
  cbn [app build_rows]. destruct (build_row orders ex); [|done].
  by rewrite IH.
Qed.

Lemma build_rows_length orders fills :
  (List.length (build_rows orders fills) <= List.length fills)%nat.
Proof.
  induction fills as [|ex fills IH]; cbn [build_rows List.length]; [lia|].
  destruct (build_row orders ex); cbn [List.length]; lia.
Qed.

Lemma build_row_empty_entry orders c ex :
  build_row (<[c := ∅]> orders) ex = build_row (delete c orders) ex.
Proof.
  unfold build_row. destruct (resolve_clid ex) as [[|x c']|]; simpl; try done.
  destruct (decide (c = x :: c')) as [->|Hne].
  - rewrite lookup_insert_eq, lookup_delete_eq. by rewrite decide_True.
  - by rewrite lookup_insert_ne, lookup_delete_ne.
Qed.

(** The entry under [c] was written by the last qualifying order line
    that carries [c]. *)
Lemma fold_store_step_last lines c order :
  fold_left store_step lines ∅ !! c = Some order ->
  exists pre oline post,
    lines = pre ++ oline :: post
    /\ qualifying_order (parse_fix_line oline) c
    /\ Forall (fun l => ~ qualifying_order (parse_fix_line l) c) post
    /\ order = order_entry (parse_fix_line oline) c ORDTYPE_LIMIT.
Proof.
  induction lines as [|l lines IH] using rev_ind.
  { cbn [fold_left]. by rewrite lookup_empty. }
  rewrite fold_left_app. cbn [fold_left].
  destruct (decide (qualifying_order (parse_fix_line l) c)) as [Hq|Hq].
  - rewrite (store_step_order _ _ _ Hq), lookup_insert_eq.
    intros [= <-]. exists lines, l, []. by split_and!.
  - rewrite store_step_lookup_other by done.
    intros (pre & oline & post & -> & Hqo & Hpost & ->)%IH.
    exists pre, oline, (post ++ [l]). split_and!; [|done| |done].
    + by rewrite <- app_assoc.
    + apply Forall_app. split; [done|]. by repeat constructor.
Qed.

Lemma load_line_order_fill_commute st oline fline c :
  qualifying_order (parse_fix_line oline) c ->
  qualifying_fill (parse_fix_line fline) ->
  load_line (load_line st oline) fline = load_line (load_line st fline) oline.
Proof.
  intros Hqo Hqf. destruct st as [o f]. unfold load_line.
  rewrite (load_msg_order o f _ c Hqo), (load_msg_fill o f _ Hqf).
  by rewrite (load_msg_fill _ f _ Hqf), (load_msg_order o _ _ c Hqo).
Qed.

(** X14: an entry of the store that is an empty dictionary counts as no
    entry: the rows are those obtained with the entry deleted. *)
Theorem X14_empty_entry_as_missing orders c fills :
  build_rows (<[c := ∅]> orders) fills = build_rows (delete c orders) fills.
Proof.
  induction fills as [|ex fills IH]; [done|].
  cbn [build_rows]. by rewrite build_row_empty_entry, IH.
Qed.

(** X15: the correlation pass emits at most one row per fill, and the
    program at most one row per input line. *)
Theorem X15_at_most_one_row_per_fill :
  (forall orders fills,
     (List.length (build_rows orders fills) <= List.length fills)%nat)
  /\ (forall lines,
        (List.length (fix_rows lines)
         <= List.length (filter qualifying_fill (parse_fix_line <$> lines))
         <= List.length lines)%nat).
Proof.
  split; [apply build_rows_length|]. intros lines. unfold fix_rows.
  rewrite load_orders_and_fills_split. split; [apply build_rows_length|].
  rewrite length_filter. by rewrite length_fmap.
Qed.

(** X16: every record handed to the csv writer, the header included, has
    exactly nine fields. *)
Theorem X16_records_have_nine_fields lines :
  Forall (fun r => List.length r = List.length HEADER) (main_records lines).
Proof.
  unfold main_records. apply Forall_cons. split; [done|].
  apply Forall_forall. intros row Hrow. unfold fix_rows in Hrow.
  destruct (load_orders_and_fills lines) as [o f].
  apply elem_of_build_rows in Hrow as (ex & _ & Hrow).
  by apply build_row_Some in Hrow as (? & ? & _ & _ & _ & _ & _ & ->).
Qed.

(** X17: the rows of the program, exactly: a row is emitted if and only if
    it is composed from a qualifying fill line and the last qualifying
    order line that carries the fill's identifier, the fill carrying
    either no tag 40 or tag 40 equal to 2. *)
Theorem X17_rows_characterized lines row :
  row ∈ fix_rows lines <->
  exists fline pre oline post c,
    fline ∈ lines
    /\ qualifying_fill (parse_fix_line fline)
    /\ resolve_clid (parse_fix_line fline) = Some c
    /\ lines = pre ++ oline :: post
    /\ qualifying_order (parse_fix_line oline) c
    /\ Forall (fun l => ~ qualifying_order (parse_fix_line l) c) post
    /\ (parse_fix_line fline !! TAG_ORDTYPE = None
        \/ parse_fix_line fline !! TAG_ORDTYPE = Some ORDTYPE_LIMIT)
    /\ row = compose_row
               (order_entry (parse_fix_line oline) c ORDTYPE_LIMIT)
               (parse_fix_line fline).
Proof.
  rewrite elem_of_fix_rows. split.
  - intros (fline & Hin & Hqf & Hrow).
    apply build_row_Some in Hrow
      as (c & order & Hc & _ & Ho & _ & Ht & ->).
    rewrite load_orders_and_fills_split in Ho. cbn [fst] in Ho.
    apply fold_store_step_last in Ho
      as (pre & oline & post & Hl & Hqo & Hpost & ->).
    exists fline, pre, oline, post, c. by split_and!.
  - intros (fline & pre & oline & post & c & Hin & Hqf & Hc & -> & Hqo
            & Hpost & Ht & ->).
    exists fline. split_and!; [done..|]. apply build_row_Some.
    exists c, (order_entry (parse_fix_line oline) c ORDTYPE_LIMIT).
    split_and!; [done|by destruct Hqo as (_ & _ & ? & _)| |
                 apply order_entry_nonempty|done|done].
    by apply store_last_order.
Qed.

Lemma X17_rows_characterized_witness :
  compose_row (order_entry (parse_fix_line order_line_A1) (py "A1")
                           ORDTYPE_LIMIT)
              (parse_fix_line fill_line_A1)
  ∈ fix_rows ([order_line_old] ++ order_line_A1 :: [fill_line_A1]).
Proof.
  apply X17_rows_characterized.
  exists fill_line_A1, [order_line_old], order_line_A1, [fill_line_A1],
    (py "A1").
  split_and!; try by vm_compute.
  - apply elem_of_app. right. right. left.
  - constructor; [|constructor]. intros (Ht & _). vm_compute in Ht.
    discriminate Ht.
  - left. by vm_compute.
Defined.

(** X18: a qualifying order line and a qualifying fill line that stand
    next to each other can be exchanged without changing what the loading
    pass returns, nor the rows. *)
Theorem X18_order_fill_exchange pre oline fline post c :
  qualifying_order (parse_fix_line oline) c ->
  qualifying_fill (parse_fix_line fline) ->
  load_orders_and_fills (pre ++ oline :: fline :: post)
  = load_orders_and_fills (pre ++ fline :: oline :: post)
  /\ fix_rows (pre ++ oline :: fline :: post)
     = fix_rows (pre ++ fline :: oline :: post).
Proof.
  intros Hqo Hqf.
  assert (load_orders_and_fills (pre ++ oline :: fline :: post)
          = load_orders_and_fills (pre ++ fline :: oline :: post)) as Heq.
  { unfold load_orders_and_fills. rewrite !fold_left_app.
    cbn [fold_left].
    by rewrite (load_line_order_fill_commute _ _ _ c Hqo Hqf). }
  split; [done|]. unfold fix_rows. by rewrite Heq.
Qed.

Lemma X18_order_fill_exchange_witness :
  load_orders_and_fills ([] ++ order_line_A1 :: fill_line_A1 :: [])
  = load_orders_and_fills ([] ++ fill_line_A1 :: order_line_A1 :: [])
  /\ fix_rows ([] ++ order_line_A1 :: fill_line_A1 :: [])
     = fix_rows ([] ++ fill_line_A1 :: order_line_A1 :: []).
Proof.
  apply (X18_order_fill_exchange [] order_line_A1 fill_line_A1 [] (py "A1"));
    by vm_compute.
Defined.

(** X19: when a fill carries tag 41 with a non-empty value, its own tag
    11 plays no part: the outcome of the correlation step is the same
    whatever value tag 11 is given. *)
Theorem X19_own_id_unused orders ex (v w : str) :
  ex !! TAG_ORIGCLORDID = Some v -> v <> [] ->
  build_row orders (<[TAG_CLORDID := w]> ex) = build_row orders ex.
Proof.
  intros Hv Hne.
  assert (resolve_clid (<[TAG_CLORDID := w]> ex) = Some v) as Hr1.
  { unfold resolve_clid, opt_or.
    rewrite lookup_insert_ne by tag_ne. rewrite Hv. by destruct v. }
  assert (resolve_clid ex = Some v) as Hr2.
  { unfold resolve_clid, opt_or. rewrite Hv. by destruct v. }
  unfold build_row. rewrite Hr1, Hr2.
  unfold compose_row, get_or_empty.
  by rewrite !lookup_insert_ne by tag_ne.
Qed.

Lemma X19_own_id_unused_witness :
  build_row (load_orders_and_fills [order_line_A1]).1
            (<[TAG_CLORDID := py "ZZ"]> (parse_fix_line fill_line_A1))
  = build_row (load_orders_and_fills [order_line_A1]).1
              (parse_fix_line fill_line_A1).
Proof.
  apply (X19_own_id_unused _ _ (py "A1")); by vm_compute.
Defined.

(** X20: an input without any qualifying order line, or without any
    qualifying fill line, yields no row. *)
Theorem X20_no_order_or_no_fill_no_rows lines :
  Forall (fun l => forall c, ~ qualifying_order (parse_fix_line l) c) lines
  \/ Forall (fun l => ~ qualifying_fill (parse_fix_line l)) lines ->
  fix_rows lines = [].
Proof.
  intros Hno. destruct (fix_rows lines) as [|row rows] eqn:Hrows; [done|].
  exfalso.
  assert (row ∈ fix_rows lines) as Hin by (rewrite Hrows; left).
  apply elem_of_fix_rows in Hin as (fline & Hfin & Hqf & Hrow).
  destruct Hno as [Hno|Hno]; rewrite Forall_forall in Hno.
  - apply build_row_Some in Hrow as (c & order & _ & _ & Ho & _).
    apply store_entries in Ho as (oline & Hoin & Hqo & _).
    by apply (Hno oline Hoin c).
  - by apply (Hno fline Hfin).
Qed.

Lemma X20_no_order_or_no_fill_no_rows_witness :
  fix_rows [market_order_line; fill_line_A1] = []
  /\ fix_rows [order_line_A1; partial_fill_line] = [].
Proof.
  split; apply X20_no_order_or_no_fill_no_rows.
  - left. repeat constructor; intros c (Ht & _ & _ & Hl);
      vm_compute in Ht, Hl; congruence.
  - right. repeat constructor; intros (Ht & He & _);
      vm_compute in Ht, He; congruence.
Defined.

(** X21: appending a qualifying fill line to the input keeps the rows
    emitted so far and adds after them the row of that fill, if it has
    one, against the store of the input. *)
Theorem X21_append_fill lines fline :
  qualifying_fill (parse_fix_line fline) ->
  fix_rows (lines ++ [fline])
  = fix_rows lines
    ++ rows_of_fill (load_orders_and_fills lines).1 (parse_fix_line fline).
Proof.
  intros Hqf. unfold fix_rows, rows_of_fill.
  rewrite !load_orders_and_fills_split. cbn [fst].
  rewrite fold_left_app. cbn [fold_left].
  rewrite store_step_no_order; cycle 1.
  { intros c Hc. eapply qualifying_order_fill_excl; eauto. }
  rewrite fmap_app, filter_app, build_rows_app. f_equal.
  rewrite fmap_cons, fmap_nil. by rewrite filter_cons_True.
Qed.

Lemma X21_append_fill_witness :
  fix_rows ([order_line_A1; fill_line_A1] ++ [fill_line_echo])
  = fix_rows [order_line_A1; fill_line_A1]
    ++ rows_of_fill (load_orders_and_fills [order_line_A1; fill_line_A1]).1
                    (parse_fix_line fill_line_echo).
Proof. apply X21_append_fill. by vm_compute. Defined.

(** X22: the rows of a concatenation of fills are the rows of the first
    part followed by the rows of the second: rows come out in the order of
    the fills. *)
Theorem X22_rows_in_fill_order orders fills fills' :
  build_rows orders (fills ++ fills')
  = build_rows orders fills ++ build_rows orders fills'.
Proof. apply build_rows_app. Qed.
End CorrelateMore.

(** * Tokens that are not fields *)

Section JunkTokens.
Implicit Types (s t sep line : str) (ss : list str) (x c : char).
Implicit Types (m msg : pydict).

Lemma join_Forall (P : char -> Prop) sep ss :
  Forall P sep -> Forall (Forall P) ss -> Forall P (join sep ss).
Proof.
  intros Hsep Hss. induction Hss as [|s ss Hs Hss IH]; [constructor|].
  destruct ss as [|s2 ss]; [done|].
  change (join sep (s :: s2 :: ss)) with (s ++ sep ++ join sep (s2 :: ss)).
  rewrite !Forall_app. by split_and!.
Qed.

Lemma strip_no_space s :
  Forall (fun x => is_space x = false) s -> strip s = s.
Proof.
  intros Hs. unfold strip. destruct s as [|x s]; [done|].
  pose proof Hs as [Hx _]%Forall_cons.
  rewrite lstrip_nonspace by done.
  by apply (rstrip_app [] (x :: s)).
Qed.

(** A line of pieces joined by SOH or by a pipe is tokenized piece by
    piece. *)
Lemma parse_fix_line_pieces c ss :
  c = SOH \/ c = PIPE -> Forall clean ss ->
  parse_fix_line (join [c] ss) = fold_left parse_field ss ∅.
Proof.
  intros Hc Hss. unfold parse_fix_line. rewrite strip_no_space; cycle 1.
  { apply join_Forall.
    - repeat constructor. destruct Hc as [-> | ->]; by vm_compute.
    - eapply Forall_impl; [exact Hss|]. intros s Hs.
      eapply Forall_impl; [exact Hs|]. by intros x (_ & _ & ?). }
  destruct ss as [|s [|s2 ss]].
  - done.
  - cbn [join]. destruct s as [|x s]; [done|].
    apply Forall_cons in Hss as [Hs _].
    change (x :: s) with (join [SOH] [x :: s]) at 1.
    rewrite split_fields_join; [done|by left|].
    constructor; [by split|constructor].
  - assert (Forall (Forall (fun x => x <> c)) (s :: s2 :: ss)) as Hnc.
    { eapply Forall_impl; [exact Hss|]. intros u Hu.
      eapply Forall_impl; [exact Hu|]. intros x (? & ? & _).
      by destruct Hc as [-> | ->]. }
    assert (split_fields (join [c] (s :: s2 :: ss)) = s :: s2 :: ss)
      as Hsplit.
    { unfold split_fields. destruct Hc as [-> | ->].
      - rewrite contains_join_sep. by apply split_on_join.
      - rewrite contains_join; [|done|].
        + rewrite contains_join_sep. by apply split_on_join.
        + eapply Forall_impl; [exact Hss|]. intros u Hu.
          apply contains_false. eapply Forall_impl; [exact Hu|].
          by intros x (? & _). }
    rewrite Hsplit.
    destruct (join [c] (s :: s2 :: ss)) as [|x r] eqn:Hj; [|done].
    pose proof (contains_join_sep c s s2 ss) as Hcs.
    rewrite Hj in Hcs. discriminate Hcs.
Qed.

Lemma fold_parse_field_filter ss m :
  fold_left parse_field (filter (fun s => contains EQUALS s = true) ss) m
  = fold_left parse_field ss m.
Proof.
  revert m. induction ss as [|s ss IH]; intros m; [done|].
  destruct (contains EQUALS s) eqn:Hs.
  - rewrite filter_cons_True by done. cbn [fold_left]. apply IH.
  - rewrite filter_cons_False by congruence. cbn [fold_left].
    rewrite parse_field_no_equals by (by apply contains_false). apply IH.
Qed.

(** X23: in a line whose tokens are joined by SOH, or by a pipe, the
    empty tokens and the tokens without [=] are skipped: the message is
    the one of the line with those tokens left out. *)
Theorem X23_tokens_without_equals_skipped c ss :
  c = SOH \/ c = PIPE -> forallb plain ss = true ->
  parse_fix_line (join [c] ss)
  = parse_fix_line (join [c] (filter (fun s => contains EQUALS s = true) ss)).
Proof.
  intros Hc Hss.
  assert (Forall clean ss) as Hclean.
  { apply Forall_forall. intros s Hs%list_elem_of_In.
    rewrite forallb_forall in Hss. by apply plain_clean, Hss. }
  rewrite !parse_fix_line_pieces; try done.
  - by rewrite fold_parse_field_filter.
  - rewrite Forall_forall in *.
    intros s [_ Hs]%list_elem_of_filter. by apply Hclean.
Qed.

Lemma X23_tokens_without_equals_skipped_witness :
  parse_fix_line
    (join [PIPE] [py "8"; py "35=D"; []; py "junk"; py "11=A1"; []])
  = parse_fix_line
      (join [PIPE]
         (filter (fun s => contains EQUALS s = true)
                 [py "8"; py "35=D"; []; py "junk"; py "11=A1"; []])).
Proof.
  apply X23_tokens_without_equals_skipped; [by right|by vm_compute].
Defined.

(** Instances of X4 and X9 on sample input. *)
Lemma X4_tags_values_separator_free_witness :
  map_Forall (fun k v => contains PIPE k = false /\ contains PIPE v = false)
             (parse_fix_line pipe_line_with_space).
Proof.
  apply (proj1 (proj2 (X4_tags_values_separator_free pipe_line_with_space))).
  by vm_compute.
Defined.

Lemma X9_store_shape_witness :
  is_Some ((load_orders_and_fills [order_line_A1]).1 !! py "A1")
  /\ dom (order_entry (parse_fix_line order_line_A1) (py "A1") ORDTYPE_LIMIT)
     = list_to_set ORDER_TAGS.
Proof.
  destruct (X9_store_shape [order_line_A1] (py "A1")) as [Hdom Hshape].
  split.
  - apply Hdom. exists order_line_A1. split; [left|by vm_compute].
  - apply (Hshape _ ltac:(by vm_compute)).
Defined.
End JunkTokens.
